(** * inhomogeneous_poisson_generator: a shallow embedding

  Source: models/inhomogeneous_poisson_generator.cpp (NEST).

  Conventions of the embedding.
  - A C++ [double] is idealised as a rational number ([Q]); only
    comparisons, one multiplication and the division by [1000.0] are
    ever performed on them by the code below.
  - A C++ [long] is an unbounded [Z], a [size_t] index is a [nat].
  - A C++ exception is a value of [error]; a method that mutates its
    receiver before throwing leaves the mutated receiver behind, so
    effectful code lives in a state monad whose failures keep the
    state reached at the [throw].
  - The kernel's [Time] class, the simulation clock and the activation
    window of [StimulationDevice] are collaborators that the file is
    compiled against; they enter as an interface ([TimeAPI]), a
    [Kernel] record and a predicate argument. *)

From Stdlib Require Import ZArith QArith Qround List Bool Lia PeanoNat Sorted.
Import ListNotations.

Local Open Scope Z_scope.

(** ** Errors *)

(** One constructor per [throw] site of the file (the names are the
  ones the design document gives to the seven [BadProperty] /
  [BadParameterValue] sites), plus one for a failed [assert]. *)
Inductive error : Type :=
| NotInFuture          (* "Time points must lie strictly in the future." *)
| NotGridAligned       (* "... is not representable in current resolution." *)
| NonMonotonic         (* "Rate times must be strictly increasing." *)
| SizeMismatch         (* "Rate times and values have to be the same size." *)
| AsymmetricUpdate     (* "Rate times and values must be reset together." *)
| OffGridFlagLocked    (* "Option can only be set together with rate times ..." *)
| OddPairCount         (* "The size of the data ... needs to be even ..." *)
| ConsistencyViolation (* a failed assert *).

(** ** State-and-exception monad *)

Module Exc.

Definition M (St A : Type) : Type := St -> (error + A) * St.

Definition ret {St A} (a : A) : M St A := fun s => (inr a, s).

Definition bind {St A B} (m : M St A) (k : A -> M St B) : M St B :=
  fun s =>
    match m s with
    | (inl e, s') => (inl e, s')
    | (inr a, s') => k a s'
    end.

Definition throw {St A} (e : error) : M St A := fun s => (inl e, s).

Definition get_state {St} : M St St := fun s => (inr s, s).

Definition modify {St} (f : St -> St) : M St unit := fun s => (inr tt, f s).

(** C [assert]: aborts when the condition is false. *)
Definition assert {St} (b : bool) : M St unit :=
  if b then ret tt else throw ConsistencyViolation.

(** Run a computation on the first component of a pair of states. *)
Definition on_fst {S1 S2 A} (m : M S1 A) : M (S1 * S2) A :=
  fun s =>
    match m (fst s) with
    | (r, s1) => (r, (s1, snd s))
    end.

Definition on_snd {S1 S2 A} (m : M S2 A) : M (S1 * S2) A :=
  fun s =>
    match m (snd s) with
    | (r, s2) => (r, (fst s, s2))
    end.

End Exc.

Import Exc.

Declare Scope exc_scope.
Delimit Scope exc_scope with exc.
Notation "x <- c1 ;; c2" := (bind c1 (fun x => c2))
  (at level 61, c1 at next level, right associativity) : exc_scope.
Notation "c1 ;; c2" := (bind c1 (fun _ => c2))
  (at level 61, right associativity) : exc_scope.

(** Outcome tests used in statements. *)
Definition raises {St A} (r : (error + A) * St) (e : error) : Prop :=
  fst r = inl e.

Definition failed {St A} (r : (error + A) * St) : bool :=
  match fst r with inl _ => true | inr _ => false end.

Definition succeeded {St A} (r : (error + A) * St) : bool :=
  negb (failed r).

(** ** The kernel interface *)

(** The operations of the kernel's [Time] class that this file calls.
  [Time_ms] is [Time::ms(double)], [Time_ms_stamp] is
  [Time( Time::ms_stamp(double) )], [Time_step] is [Time::step(long)],
  [Time_ge] is [operator>=]. *)
Class TimeAPI : Type := {
  Time : Type;
  Time_ms : Q -> Time;
  Time_ms_stamp : Q -> Time;
  Time_step : Z -> Time;
  is_grid_time : Time -> bool;
  get_ms : Time -> Q;
  get_steps : Time -> Z;
  Time_ge : Time -> Time -> bool;
  get_resolution : Time
}.

(** What [kernel()] is asked for: [simulation_manager.get_time()] and
  [connection_manager.get_min_delay()]. *)
Record Kernel `{TimeAPI} : Type := mkKernel {
  get_time : Time;
  get_min_delay : Z
}.

(** ** Data model *)

Section Generator.

Context `{TA : TimeAPI}.

Record Parameters_ : Type := mkParameters {
  rate_times_ : list Time;          (* std::vector< Time > *)
  rate_values_ : list Q;            (* std::vector< double > *)
  allow_offgrid_times_ : bool
}.

Record Buffers_ : Type := mkBuffers {
  idx_ : nat;                       (* size_t: index of the next rate *)
  rate_ : Q                         (* double: current rate, spikes/ms *)
}.

Record Variables_ : Type := mkVariables {
  h_ : Q                            (* double: time resolution, ms *)
}.

(** The three entries of a status dictionary this model reads; a
    missing key is [None]. *)
Record Dictionary : Type := mkDictionary {
  d_rate_times : option (list Q);
  d_rate_values : option (list Q);
  d_allow_offgrid_times : option bool
}.

Definition known {A} (o : option A) : bool :=
  match o with Some _ => true | None => false end.

Definition is_empty {A} (l : list A) : bool :=
  match l with [] => true | _ :: _ => false end.

(** Default constructor of [Parameters_]. *)
Definition Parameters_default : Parameters_ :=
  {| rate_times_ := []; rate_values_ := []; allow_offgrid_times_ := false |}.

(** [Parameters_::get]: the read configuration surface. *)
Definition get (P : Parameters_) : Dictionary :=
  let n_rates := length (rate_times_ P) in
  let times_ms :=
    map (fun n => get_ms (nth n (rate_times_ P) (Time_ms 0%Q))) (seq 0 n_rates) in
  {| d_rate_times := Some times_ms;
     d_rate_values := Some (rate_values_ P);
     d_allow_offgrid_times := Some (allow_offgrid_times_ P) |}.

(** ** Validation and insertion of one rate time *)

Definition push_back_rate_time (t_rate : Time) (P : Parameters_) : Parameters_ :=
  {| rate_times_ := rate_times_ P ++ [t_rate];
     rate_values_ := rate_values_ P;
     allow_offgrid_times_ := allow_offgrid_times_ P |}.

(** [Parameters_::assert_valid_rate_time_and_insert]. *)
Definition assert_valid_rate_time_and_insert (K : Kernel) (t : Q)
  : M Parameters_ unit :=
  (if Qle_bool t (get_ms (get_time K)) then throw NotInFuture
   else
     t_rate <- (if negb (is_grid_time (Time_ms t)) then
                  P <- get_state ;;
                  if allow_offgrid_times_ P
                  then ret (Time_ms_stamp t)
                  else throw NotGridAligned
                else ret (Time_ms t)) ;;
     assert (is_grid_time t_rate) ;;
     modify (push_back_rate_time t_rate))%exc.

(** ** Parameters_::set *)

(** [updateValue< std::vector< double > >( d, names::rate_values,
    rate_values_ )]: when the key is present the stored values are
    overwritten at once and [true] is returned.  (This call is the
    only place of the file where new rate values reach
    [rate_values_].) *)
Definition updateValue_rate_values (v : option (list Q)) : M Parameters_ bool :=
  match v with
  | Some vs =>
      (modify (fun P => {| rate_times_ := rate_times_ P;
                           rate_values_ := vs;
                           allow_offgrid_times_ := allow_offgrid_times_ P |}) ;;
       ret true)%exc
  | None => ret false
  end.

Definition set_allow_offgrid_times (flag : bool) (P : Parameters_) : Parameters_ :=
  {| rate_times_ := rate_times_ P;
     rate_values_ := rate_values_ P;
     allow_offgrid_times_ := flag |}.

Definition clear_rate_times (P : Parameters_) : Parameters_ :=
  {| rate_times_ := [];
     rate_values_ := rate_values_ P;
     allow_offgrid_times_ := allow_offgrid_times_ P |}.

Definition reset_idx (B : Buffers_) : Buffers_ :=
  {| idx_ := 0%nat; rate_ := rate_ B |}.

(** The [for ( ++next; next != d_times.end(); ++next, ++prev_rate )]
    loop: [next] is the rest of the input, [prev_rate] the position
    of the iterator into [rate_times_] (always the last but one entry,
    as [reserve] keeps the iterator valid). *)
Fixpoint set_loop (K : Kernel) (next : list Q) (prev_rate : nat)
  : M Parameters_ unit :=
  match next with
  | [] => ret tt
  | t :: next' =>
      (assert_valid_rate_time_and_insert K t ;;
       P <- get_state ;;
       if Time_ge (nth prev_rate (rate_times_ P) (Time_ms 0%Q))
                  (last (rate_times_ P) (Time_ms 0%Q))
       then throw NonMonotonic
       else set_loop K next' (S prev_rate))%exc
  end.

(** [Parameters_::set( d, b, node )]; the state is the receiver
    together with the buffers passed by reference. *)
Definition set (K : Kernel) (d : Dictionary) : M (Parameters_ * Buffers_) unit :=
  (let times := known (d_rate_times d) in
   rates <- on_fst (updateValue_rate_values (d_rate_values d)) ;;
   match d_allow_offgrid_times d with
   | Some flag_offgrid =>
       s <- get_state ;;
       if xorb flag_offgrid (allow_offgrid_times_ (fst s))
          && negb (times || is_empty (rate_times_ (fst s)))
       then throw OffGridFlagLocked
       else on_fst (modify (set_allow_offgrid_times flag_offgrid))
   | None => ret tt
   end ;;
   if xorb times rates then throw AsymmetricUpdate
   else if negb (times || rates) then ret tt
   else
     (* the lookup cannot miss: [times] holds here *)
     let d_times := match d_rate_times d with Some l => l | None => [] end in
     match d_times with
     | [] => ret tt
     | first :: rest =>
         s <- get_state ;;
         if negb (length d_times =? length (rate_values_ (fst s)))%nat
         then throw SizeMismatch
         else
           on_fst (modify clear_rate_times) ;;
           on_fst (assert_valid_rate_time_and_insert K first) ;;
           on_fst (set_loop K rest 0) ;;
           on_snd (modify reset_idx)
     end)%exc.

(** ** Committing a configuration

    Both configuration entry points work on a temporary copy of
    [P_] and write it back only when [Parameters_::set] returned
    normally; an exception leaves [P_] as it was and keeps whatever
    [set] had done to the buffers by then. *)

(** Modelled from the spec: [set_status], the bulk configuration
    entry point, is defined inline in inhomogeneous_poisson_generator.h
    and is not part of this file.  Section 4.1 and section 7 of the
    design document describe it as build-in-a-temporary, then swap:
    "Only on full success does it swap the temporary in as the new
    schedule"; "temporary-build-then-swap commit discipline".  The
    same discipline is spelled out in this file by
    [set_data_from_stimulation_backend].  The properties of the parent
    device, which the entry point also forwards, are outside this
    core. *)
Definition set_status (K : Kernel) (d : Dictionary)
  : M (Parameters_ * Buffers_) unit :=
  fun s =>
    let P_ := fst s in
    let B_ := snd s in
    let ptmp := P_ in                       (* temporary copy *)
    match set K d (ptmp, B_) with
    | (inl e, (_, B')) => (inl e, (P_, B'))
    | (inr _, (ptmp', B')) => (inr tt, (ptmp', B'))   (* P_ = ptmp *)
    end.

(** [set_data_from_stimulation_backend( rate_time_update )].  The two
    copy loops index [P_.rate_times_], [P_.rate_values_] and the update
    as the source does; [P_.rate_values_[ n ]] is read for every
    [n < P_.rate_times_.size()], and an index past the end of
    [rate_values_] (which the size invariant excludes) reads 0 here. *)
Definition set_data_from_stimulation_backend (K : Kernel)
    (rate_time_update : list Q) : M (Parameters_ * Buffers_) unit :=
  fun s =>
    let P_ := fst s in
    let B_ := snd s in
    let ptmp := P_ in                       (* temporary copy in case of errors *)
    let r :=
      if negb (is_empty rate_time_update) then
        if negb (length rate_time_update mod 2 =? 0)%nat
        then (inl OddPairCount, (ptmp, B_))
        else
          let n_spikes := length (rate_times_ P_) in
          let old_times :=
            map (fun n => get_ms (nth n (rate_times_ P_) (Time_ms 0%Q)))
                (seq 0 n_spikes) in
          let old_values :=
            map (fun n => nth n (rate_values_ P_) 0%Q) (seq 0 n_spikes) in
          let new_times :=
            map (fun n => nth (n * 2) rate_time_update 0%Q)
                (seq 0 (length rate_time_update / 2)) in
          let new_values :=
            map (fun n => nth (n * 2 + 1) rate_time_update 0%Q)
                (seq 0 (length rate_time_update / 2)) in
          let d := {| d_rate_times := Some (old_times ++ new_times);
                      d_rate_values := Some (old_values ++ new_values);
                      d_allow_offgrid_times := None |} in
          set K d (ptmp, B_)
      else (inr tt, (ptmp, B_)) in
    match r with
    | (inl e, (_, B')) => (inl e, (P_, B'))
    | (inr _, (ptmp', B')) => (inr tt, (ptmp', B'))   (* P_ = ptmp *)
    end.

(** ** Node initialisation *)

(** [init_buffers_]. *)
Definition init_buffers_ (B : Buffers_) : Buffers_ :=
  {| idx_ := 0%nat; rate_ := 0%Q |}.

(** [pre_run_hook]. *)
Definition pre_run_hook (V : Variables_) : Variables_ :=
  {| h_ := get_ms get_resolution |}.

(** ** update *)

(** The [while] loop that skips rate times in the past.  [rest] is
    the part of [rate_times_] from position [idx] on, so the loop
    condition [idx < size] is [rest <> []]. *)
Fixpoint skip_past (first : Z) (rest : list Time) (idx : nat) : nat :=
  match rest with
  | [] => idx
  | t :: rest' =>
      if get_steps t <=? first then skip_past first rest' (S idx) else idx
  end.

(** One iteration of the [for] loop at offset [offs]: the buffers
    after it and the offsets handed to [send].  The two vectors are
    indexed under the guard [idx_ < size] only (the sizes are equal by
    the assert of [update]), so the default of [nth] is never read. *)
Definition update_step (is_active : Time -> bool) (P : Parameters_) (t0 : Z)
    (B : Buffers_) (offs : Z) : Buffers_ * list Z :=
  let curr_time := t0 + offs in
  let B1 :=
    if (idx_ B <? length (rate_times_ P))%nat
       && (curr_time + 1 =? get_steps (nth (idx_ B) (rate_times_ P) (Time_ms 0%Q)))
    then {| idx_ := S (idx_ B);
            rate_ := (nth (idx_ B) (rate_values_ P) 0 / 1000)%Q |}
    else B in
  if negb (Qle_bool (rate_ B1) 0%Q) && is_active (Time_step curr_time)
  then (B1, [offs])
  else (B1, []).

(** [n] iterations of the [for] loop, starting at offset [offs]. *)
Fixpoint update_loop (is_active : Time -> bool) (P : Parameters_) (t0 : Z)
    (n : nat) (B : Buffers_) (offs : Z) : Buffers_ * list Z :=
  match n with
  | O => (B, [])
  | S n' =>
      let (B1, sent1) := update_step is_active P t0 B offs in
      let (B2, sent2) := update_loop is_active P t0 n' B1 (offs + 1) in
      (B2, sent1 ++ sent2)
  end.

(** [update( origin, from, to )]: the buffers afterwards and the
    offsets at which a [DSSpikeEvent] was sent, or the failure of
    one of the three leading asserts. *)
Definition update (K : Kernel) (is_active : Time -> bool) (P : Parameters_)
    (origin : Time) (from to : Z) : M Buffers_ (list Z) :=
  (assert ((0 <=? to) && (from <? get_min_delay K)) ;;
   assert (from <? to) ;;
   assert (length (rate_times_ P) =? length (rate_values_ P))%nat ;;
   fun B =>
     let t0 := get_steps origin in
     let first := t0 + from in
     let B0 := {| idx_ := skip_past first (skipn (idx_ B) (rate_times_ P)) (idx_ B);
                  rate_ := rate_ B |} in
     let (B', sent) := update_loop is_active P t0 (Z.to_nat (to - from)) B0 from in
     (inr sent, B'))%exc.

(** ** event_hook *)

(** A spike event on its way to one receiver. *)
Record DSSpikeEvent : Type := mkDSSpikeEvent {
  receiver : nat;
  multiplicity : Z
}.

Definition set_multiplicity (n : Z) (e : DSSpikeEvent) : DSSpikeEvent :=
  {| receiver := receiver e; multiplicity := n |}.

(** [event_hook( e )].  The thread's random stream is the state;
    [poisson_dist_] is the provided sampler, taking the stream and the
    mean.  The result lists the events passed to
    [e.get_receiver().handle]. *)
Definition event_hook {RNG : Type} (poisson_dist_ : RNG -> Q -> Z * RNG)
    (B : Buffers_) (V : Variables_) (e : DSSpikeEvent)
    (rng : RNG) : list DSSpikeEvent * RNG :=
  let param := (rate_ B * h_ V)%Q in
  let (n_spikes, rng') := poisson_dist_ rng param in
  if 0 <? n_spikes
  then ([set_multiplicity n_spikes e], rng')
  else ([], rng').

End Generator.

Arguments Parameters_ {TA}.
Arguments Kernel {_}.

(** ** A grid of step [h]

    The kernel's [Time] class (nestkernel/nest_time.h) is not part of
    this file.  The instance below follows the design document: a time
    value is a "continuous-time instant (ms)"; it is grid-aligned when
    it "coincides exactly with a multiple of the fixed simulation step
    size"; an off-grid time is rounded "up to the end of the containing
    step", to "the smallest grid time >= the original".  An instant is
    kept as its value in ms; [h] is the step size in ms. *)
Module Grid.

(** Modelled from the spec: the position of instant [x] on the step
    grid, in steps (the kernel's ms-to-steps conversion is missing). *)
Definition steps_of (h x : Q) : Q := (x / h)%Q.

(** Modelled from the spec: [Time::is_grid_time] is missing; "a time
    instant coincides exactly with a multiple of the fixed simulation
    step size". *)
Definition on_grid (h x : Q) : bool :=
  Qeq_bool (inject_Z (Qfloor (steps_of h x))) (steps_of h x).

(** Modelled from the spec: [Time::ms_stamp] is missing; "rounds up to
    the end of the containing step". *)
Definition round_up (h x : Q) : Q :=
  (inject_Z (Qceiling (steps_of h x)) * h)%Q.

(** Modelled from the spec: the [Time] class is missing; an instant is
    its value in ms, compared as such, and its step is its position on
    the grid (rounded up for an instant inside a step). *)
Definition GridTime (h : Q) : TimeAPI :=
  {| Time := Q;
     Time_ms := fun x => x;
     Time_ms_stamp := round_up h;
     Time_step := fun n => (inject_Z n * h)%Q;
     is_grid_time := on_grid h;
     get_ms := fun x => x;
     get_steps := fun x => Qceiling (steps_of h x);
     Time_ge := fun a b => Qle_bool b a;
     get_resolution := h |}.

End Grid.

(** ** Pure readings of the validation code *)

Section Readings.

Context `{TA : TimeAPI}.

(** The value of [t_rate] that [assert_valid_rate_time_and_insert]
    pushes for input [t] under off-grid policy [allow], or the
    exception it throws. *)
Definition aligned_time (K : Kernel) (allow : bool) (t : Q) : error + Time :=
  if Qle_bool t (get_ms (get_time K)) then inl NotInFuture
  else if is_grid_time (Time_ms t) then inr (Time_ms t)
  else if allow then
         if is_grid_time (Time_ms_stamp t) then inr (Time_ms_stamp t)
         else inl ConsistencyViolation
  else inl NotGridAligned.

(** Adjacent elements compare as the loop of [set] requires:
    [not ( prev >= next )]. *)
Fixpoint increasing_from (prev : Time) (l : list Time) : bool :=
  match l with
  | [] => true
  | a :: l' => negb (Time_ge prev a) && increasing_from a l'
  end.

Definition strictly_increasing (l : list Time) : bool :=
  match l with
  | [] => true
  | a :: l' => increasing_from a l'
  end.

(** What the loop of [set] appends after an entry [prev]. *)
Fixpoint build_after (K : Kernel) (allow : bool) (prev : Time) (ts : list Q)
  : error + list Time :=
  match ts with
  | [] => inr []
  | t :: ts' =>
      match aligned_time K allow t with
      | inl e => inl e
      | inr a =>
          if Time_ge prev a then inl NonMonotonic
          else match build_after K allow a ts' with
               | inl e => inl e
               | inr l => inr (a :: l)
               end
      end
  end.

(** The temporary schedule [set] builds from the input times. *)
Definition build_schedule (K : Kernel) (allow : bool) (ts : list Q)
  : error + list Time :=
  match ts with
  | [] => inr []
  | t :: ts' =>
      match aligned_time K allow t with
      | inl e => inl e
      | inr a =>
          match build_after K allow a ts' with
          | inl e => inl e
          | inr l => inr (a :: l)
          end
      end
  end.

(** The invariant of the schedule: as many values as times, times
    strictly increasing. *)
Definition schedule_invariant (P : Parameters_) : bool :=
  (length (rate_times_ P) =? length (rate_values_ P))%nat
  && strictly_increasing (rate_times_ P).

(** The dictionary [set_data_from_stimulation_backend] hands to [set]. *)
Definition backend_dictionary (P : Parameters_) (rate_time_update : list Q)
  : Dictionary :=
  let n := (length rate_time_update / 2)%nat in
  {| d_rate_times :=
       Some (map get_ms (rate_times_ P)
             ++ map (fun k => nth (k * 2) rate_time_update 0%Q) (seq 0 n));
     d_rate_values :=
       Some (map (fun k => nth k (rate_values_ P) 0%Q)
                 (seq 0 (length (rate_times_ P)))
             ++ map (fun k => nth (k * 2 + 1) rate_time_update 0%Q) (seq 0 n));
     d_allow_offgrid_times := None |}.

(** The condition of the [throw] at the off-grid flag:
    [flag_offgrid != allow_offgrid_times_ and not( times or
    rate_times_.empty() )], false when the dictionary has no flag. *)
Definition flag_locked (d : Dictionary) (P : Parameters_) : bool :=
  match d_allow_offgrid_times d with
  | Some flag_offgrid =>
      xorb flag_offgrid (allow_offgrid_times_ P)
      && negb (known (d_rate_times d) || is_empty (rate_times_ P))
  | None => false
  end.

(** The errors the insertion loop of [set] can end with. *)
Definition building_error (e : error) : bool :=
  match e with
  | NotInFuture | NotGridAligned | NonMonotonic | ConsistencyViolation => true
  | _ => false
  end.

(** The flat [time, rate, time, rate, ...] sequence of a list of pairs. *)
Fixpoint flatten_pairs (pairs : list (Q * Q)) : list Q :=
  match pairs with
  | [] => []
  | (t, r) :: pairs' => t :: r :: flatten_pairs pairs'
  end.

(** The policy in force while the times of [d] are inserted: the flag
    of the dictionary when it has one, the stored flag otherwise. *)
Definition policy_after (d : Dictionary) (P : Parameters_) : bool :=
  match d_allow_offgrid_times d with
  | Some flag => flag
  | None => allow_offgrid_times_ P
  end.

(** [P_.rate_times_[ i ].get_steps()]. *)
Definition step_at (P : Parameters_) (i : nat) : Z :=
  get_steps (nth i (rate_times_ P) (Time_ms 0%Q)).

(** The steps of the stored times increase strictly with the index. *)
Definition steps_increasing (P : Parameters_) : Prop :=
  forall i j : nat,
    (i < j < length (rate_times_ P))%nat -> step_at P i < step_at P j.

(** The buffers [update] starts its [for] loop with: the index moved
    past the rate times that are not after [first]. *)
Definition caught_up (P : Parameters_) (first : Z) (B : Buffers_) : Buffers_ :=
  {| idx_ := skip_past first (skipn (idx_ B) (rate_times_ P)) (idx_ B);
     rate_ := rate_ B |}.

(** The offsets [offs, offs + 1, ..., offs + n - 1]. *)
Fixpoint offsets (offs : Z) (n : nat) : list Z :=
  match n with
  | O => []
  | S n' => offs :: offsets (offs + 1) n'
  end.

(** The test of the "create spikes" statement for a rate [r]. *)
Definition spike_decided (is_active : Time -> bool) (t0 : Z) (r : Q) (offs : Z)
  : bool :=
  negb (Qle_bool r 0%Q) && is_active (Time_step (t0 + offs)).

End Readings.

(** ** A concrete generator

    Resolution 0.1 ms, [min_delay] of ten steps; used where a statement
    is evaluated on an explicit input. *)

Definition G01 : TimeAPI := Grid.GridTime (1 # 10).

Definition kernel_at (now : Q) : @Kernel G01 :=
  @mkKernel G01 now 10.

Definition schedule (times values : list Q) (allow : bool) : @Parameters_ G01 :=
  @mkParameters G01 times values allow.

Definition buffers (idx : nat) (rate : Q) : Buffers_ :=
  mkBuffers idx rate.

Definition dict (times values : option (list Q)) (flag : option bool)
  : Dictionary :=
  mkDictionary times values flag.

Definition always_active : @Time G01 -> bool := fun _ => true.

(** A sampler that always draws [n], on a stream that counts draws. *)
Definition constant_draw (n : Z) : nat -> Q -> Z * nat :=
  fun rng _ => (n, S rng).

(** * Properties *)

Ltac exc_unfold :=
  unfold assert, on_fst, on_snd, bind, ret, throw, modify, get_state in *.

Section Insertion.

Context `{TA : TimeAPI}.
Variable K : Kernel.

Lemma insert_aligned_time (t : Q) (P : Parameters_) :
  assert_valid_rate_time_and_insert K t P =
  match aligned_time K (allow_offgrid_times_ P) t with
  | inl e => (inl e, P)
  | inr a => (inr tt, push_back_rate_time a P)
  end.
Proof.
  unfold assert_valid_rate_time_and_insert, aligned_time.
  destruct (Qle_bool t (get_ms (get_time K))); [reflexivity|].
  exc_unfold.
  destruct (is_grid_time (Time_ms t)) eqn:Hg; simpl.
  - rewrite Hg. reflexivity.
  - destruct (allow_offgrid_times_ P); [|reflexivity].
    destruct (is_grid_time (Time_ms_stamp t)); reflexivity.
Qed.

(** Whatever is pushed is a grid time. *)
Lemma aligned_time_is_grid (allow : bool) (t : Q) (a : Time) :
  aligned_time K allow t = inr a -> is_grid_time a = true.
Proof.
  unfold aligned_time.
  destruct (Qle_bool t _); [discriminate|].
  destruct (is_grid_time (Time_ms t)) eqn:Hg.
  - intros [= <-]. exact Hg.
  - destruct allow; [|discriminate].
    destruct (is_grid_time (Time_ms_stamp t)) eqn:Hs; [|discriminate].
    intros [= <-]. exact Hs.
Qed.

Lemma aligned_time_in_future (allow : bool) (t : Q) (a : Time) :
  aligned_time K allow t = inr a -> (get_ms (get_time K) < t)%Q.
Proof.
  unfold aligned_time.
  destruct (Qle_bool t _) eqn:Hle; [discriminate|].
  intros _. apply Qnot_le_lt. intros Hc.
  apply Qle_bool_iff in Hc. congruence.
Qed.

End Insertion.

Section SetReading.

Context `{TA : TimeAPI}.
Variable K : Kernel.

Lemma nth_last_snoc (init : list Time) (prev a d : Time) :
  nth (length init) ((init ++ [prev]) ++ [a]) d = prev
  /\ last ((init ++ [prev]) ++ [a]) d = a.
Proof.
  split.
  - rewrite <- app_assoc. rewrite app_nth2 by lia.
    rewrite Nat.sub_diag. reflexivity.
  - apply last_last.
Qed.

Lemma set_loop_cons (t : Q) (ts : list Q) (n : nat) (P : Parameters_) :
  set_loop K (t :: ts) n P =
  match aligned_time K (allow_offgrid_times_ P) t with
  | inl e => (inl e, P)
  | inr a =>
      let P' := push_back_rate_time a P in
      if Time_ge (nth n (rate_times_ P') (Time_ms 0%Q))
                 (last (rate_times_ P') (Time_ms 0%Q))
      then (inl NonMonotonic, P')
      else set_loop K ts (S n) P'
  end.
Proof.
  simpl. unfold bind at 1. rewrite insert_aligned_time.
  destruct (aligned_time K (allow_offgrid_times_ P) t) as [e|a]; [reflexivity|].
  unfold bind, get_state. simpl.
  destruct (Time_ge _ _); reflexivity.
Qed.

(** The loop of [set] computes [build_after]. *)
Lemma set_loop_build (ts : list Q) :
  forall (init : list Time) (prev : Time) (vs : list Q) (allow : bool),
    let P := mkParameters (init ++ [prev]) vs allow in
    match build_after K allow prev ts with
    | inl e => fst (set_loop K ts (length init) P) = inl e
    | inr al =>
        set_loop K ts (length init) P
        = (inr tt, mkParameters ((init ++ [prev]) ++ al) vs allow)
    end.
Proof.
  induction ts as [|t ts IH]; intros init prev vs allow P.
  - simpl. unfold ret, P. rewrite app_nil_r. reflexivity.
  - rewrite set_loop_cons. subst P. cbn [build_after allow_offgrid_times_].
    destruct (aligned_time K allow t) as [e|a]; [reflexivity|].
    unfold push_back_rate_time. cbn [rate_times_ rate_values_ allow_offgrid_times_].
    cbv zeta.
    destruct (nth_last_snoc init prev a (Time_ms 0%Q)) as [-> ->].
    destruct (Time_ge prev a); [reflexivity|].
    specialize (IH (init ++ [prev]) a vs allow). cbv zeta in IH.
    rewrite length_app, Nat.add_1_r in IH.
    destruct (build_after K allow a ts) as [e|al].
    + exact IH.
    + rewrite IH. rewrite <- (app_assoc (init ++ [prev]) [a] al). reflexivity.
Qed.

(** [set] on a call that supplies values and a non-empty list of
    times. *)
Lemma set_nontrivial (d : Dictionary) (P : Parameters_) (B : Buffers_)
    (t : Q) (ts vs : list Q) :
  d_rate_times d = Some (t :: ts) ->
  d_rate_values d = Some vs ->
  length (t :: ts) = length vs ->
  match build_schedule K (policy_after d P) (t :: ts) with
  | inl e => fst (set K d (P, B)) = inl e /\ snd (snd (set K d (P, B))) = B
  | inr al =>
      set K d (P, B)
      = (inr tt, (mkParameters al vs (policy_after d P), reset_idx B))
  end.
Proof.
  intros Ht Hv Hlen. apply Nat.eqb_eq in Hlen.
  destruct d as [dt dv df]; simpl in Ht, Hv; subst dt dv.
  unfold policy_after, set.
  cbn [d_rate_times d_rate_values d_allow_offgrid_times known].
  pose proof (insert_aligned_time K t) as Hins.
  pose proof (set_loop_build ts [] ) as Hloop.
  destruct df as [f|]; unfold updateValue_rate_values; exc_unfold;
    cbn -[Nat.eqb length assert_valid_rate_time_and_insert set_loop
          build_schedule];
    rewrite ?andb_false_r;
    cbn -[Nat.eqb length assert_valid_rate_time_and_insert set_loop
          build_schedule];
    rewrite Hlen;
    cbn -[Nat.eqb length assert_valid_rate_time_and_insert set_loop
          build_schedule];
    rewrite Hins; unfold build_schedule;
    cbn [clear_rate_times set_allow_offgrid_times allow_offgrid_times_
         rate_times_ rate_values_];
    (match goal with
     | |- context [aligned_time K ?al t] =>
         destruct (aligned_time K al t) as [e|a];
         [split; reflexivity|];
         specialize (Hloop a vs al); cbn [length app] in Hloop;
         unfold push_back_rate_time;
         cbn [fst snd app rate_times_ rate_values_ allow_offgrid_times_
              clear_rate_times set_allow_offgrid_times];
         destruct (build_after K al a ts) as [e|l];
         [ destruct (set_loop K ts 0 _) as [r P']; cbn [fst] in Hloop;
           subst r; split; reflexivity
         | rewrite Hloop; reflexivity ]
     end).
Qed.

End SetReading.

Section SetFrame.

Context `{TA : TimeAPI}.
Variable K : Kernel.

(** [set] touches the buffers only in its last statement: it either
    leaves them alone or, on a normal return, has reset the index. *)
Lemma set_buffers (d : Dictionary) (P : Parameters_) (B : Buffers_) :
  snd (snd (set K d (P, B))) = B
  \/ (fst (set K d (P, B)) = inr tt
      /\ snd (snd (set K d (P, B))) = reset_idx B).
Proof.
  unfold set, updateValue_rate_values; exc_unfold.
  destruct d as [dt dv df].
  cbn [d_rate_times d_rate_values d_allow_offgrid_times].
  destruct dt as [[|t ts]|], dv as [vs|], df as [f|];
    cbn -[Nat.eqb length assert_valid_rate_time_and_insert set_loop];
    repeat match goal with
      | |- context [if ?b then _ else _] => destruct b
      | |- context [assert_valid_rate_time_and_insert K ?x ?y] =>
          destruct (assert_valid_rate_time_and_insert K x y) as [[?|[]] ?]
      | |- context [set_loop K ?x ?n ?y] =>
          destruct (set_loop K x n y) as [[?|[]] ?]
      end;
    cbn; auto.
Qed.

Lemma set_keeps_rate (d : Dictionary) (P : Parameters_) (B : Buffers_) :
  rate_ (snd (snd (set K d (P, B)))) = rate_ B.
Proof.
  destruct (set_buffers d P B) as [-> | [_ ->]]; reflexivity.
Qed.

Lemma set_failure_keeps_buffers (d : Dictionary) (P : Parameters_)
    (B : Buffers_) (e : error) :
  fst (set K d (P, B)) = inl e -> snd (snd (set K d (P, B))) = B.
Proof.
  intros He. destruct (set_buffers d P B) as [H | [H _]]; [exact H|].
  congruence.
Qed.

(** The commit discipline, for any body run on the temporary copy. *)
Lemma set_status_failure (d : Dictionary) (P : Parameters_) (B : Buffers_)
    (e : error) :
  fst (set_status K d (P, B)) = inl e ->
  fst (set K d (P, B)) = inl e /\ snd (set_status K d (P, B)) = (P, B).
Proof.
  unfold set_status. cbn [fst snd].
  pose proof (set_failure_keeps_buffers d P B) as HB.
  destruct (set K d (P, B)) as [[e'|[]] [P' B']]; cbn [fst snd] in *.
  - intros [= ->]. rewrite (HB e eq_refl). split; reflexivity.
  - discriminate.
Qed.

Lemma set_status_success (d : Dictionary) (P : Parameters_) (B : Buffers_) :
  fst (set_status K d (P, B)) = inr tt ->
  set_status K d (P, B) = set K d (P, B).
Proof.
  unfold set_status. cbn [fst snd].
  destruct (set K d (P, B)) as [[e'|[]] [P' B']]; cbn [fst snd].
  - discriminate.
  - reflexivity.
Qed.

End SetFrame.

Section Backend.

Context `{TA : TimeAPI}.
Variable K : Kernel.

Lemma map_nth_seq {A B} (f : A -> B) (l : list A) (d : A) :
  map (fun n => f (nth n l d)) (seq 0 (length l)) = map f l.
Proof.
  induction l as [|a l IH] using rev_ind; [reflexivity|].
  rewrite length_app, Nat.add_1_r, seq_S, !map_app. cbn [map Nat.add].
  rewrite app_nth2, Nat.sub_diag by lia. cbn [nth]. f_equal.
  rewrite <- IH. apply map_ext_in. intros n Hn. apply in_seq in Hn.
  rewrite app_nth1 by lia. reflexivity.
Qed.

(** [Parameters_::get] shows the stored times in ms, and the update
    dictionary starts with exactly those. *)
Lemma get_rate_times (P : Parameters_) :
  d_rate_times (get P) = Some (map get_ms (rate_times_ P))
  /\ d_rate_values (get P) = Some (rate_values_ P)
  /\ d_allow_offgrid_times (get P) = Some (allow_offgrid_times_ P).
Proof.
  unfold get. cbn [d_rate_times d_rate_values d_allow_offgrid_times].
  rewrite (map_nth_seq get_ms). repeat split.
Qed.

Lemma backend_unfold (u : Q) (upd : list Q) (P : Parameters_) (B : Buffers_) :
  (length (u :: upd) mod 2 =? 0)%nat = true ->
  set_data_from_stimulation_backend K (u :: upd) (P, B)
  = match set K (backend_dictionary P (u :: upd)) (P, B) with
    | (inl e, (_, B')) => (inl e, (P, B'))
    | (inr _, (ptmp', B')) => (inr tt, (ptmp', B'))
    end.
Proof.
  intros Heven. unfold set_data_from_stimulation_backend, backend_dictionary.
  cbn [fst snd is_empty negb]. rewrite Heven. cbn [negb].
  rewrite (map_nth_seq get_ms). reflexivity.
Qed.

Lemma backend_failure (upd : list Q) (P : Parameters_) (B : Buffers_) (e : error) :
  fst (set_data_from_stimulation_backend K upd (P, B)) = inl e ->
  snd (set_data_from_stimulation_backend K upd (P, B)) = (P, B).
Proof.
  destruct upd as [|u upd].
  - discriminate.
  - destruct (length (u :: upd) mod 2 =? 0)%nat eqn:Heven.
    + rewrite backend_unfold by exact Heven.
      pose proof (set_failure_keeps_buffers K (backend_dictionary P (u :: upd)) P B) as HB.
      destruct (set K _ (P, B)) as [[e'|[]] [P' B']]; cbn [fst snd] in *.
      * intros _. rewrite (HB e' eq_refl). reflexivity.
      * discriminate.
    + unfold set_data_from_stimulation_backend.
      cbn [fst snd is_empty negb]. rewrite Heven. reflexivity.
Qed.

Lemma backend_keeps_rate (upd : list Q) (P : Parameters_) (B : Buffers_) :
  rate_ (snd (snd (set_data_from_stimulation_backend K upd (P, B)))) = rate_ B.
Proof.
  destruct upd as [|u upd]; [reflexivity|].
  destruct (length (u :: upd) mod 2 =? 0)%nat eqn:Heven.
  - rewrite backend_unfold by exact Heven.
    pose proof (set_keeps_rate K (backend_dictionary P (u :: upd)) P B) as HB.
    destruct (set K _ (P, B)) as [[e'|[]] [P' B']]; exact HB.
  - unfold set_data_from_stimulation_backend.
    cbn [fst snd is_empty negb]. rewrite Heven. reflexivity.
Qed.

End Backend.

(** C1.  Atomic replacement: when a configuration call -- the bulk
    [set_status] or the streaming [set_data_from_stimulation_backend] --
    raises an error, the stored parameters ([rate_times_],
    [rate_values_], [allow_offgrid_times_]) and the buffers (the cursor
    [idx_], and [rate_] with it) are exactly what they were before the
    call, for every prior state and every input. *)
Theorem failed_configuration_leaves_state_unchanged `{TA : TimeAPI}
    (K : Kernel) (P : Parameters_) (B : Buffers_) (e : error) :
  (forall d : Dictionary,
      raises (set_status K d (P, B)) e ->
      snd (set_status K d (P, B)) = (P, B))
  /\ (forall rate_time_update : list Q,
      raises (set_data_from_stimulation_backend K rate_time_update (P, B)) e ->
      snd (set_data_from_stimulation_backend K rate_time_update (P, B)) = (P, B)).
Proof.
  split.
  - intros d He. exact (proj2 (set_status_failure K d P B e He)).
  - intros upd He. exact (backend_failure K upd P B e He).
Qed.

Section Examples_C1.

Local Open Scope Q_scope.

Lemma failed_configuration_witness :
  (raises (set_status (kernel_at 60)
             (dict (Some [200; 100.5]) (Some [100; 50]) None)
             (schedule [100.5] [50] false, buffers 1 0.005)) NonMonotonic
   /\ snd (set_status (kernel_at 60)
             (dict (Some [200; 100.5]) (Some [100; 50]) None)
             (schedule [100.5] [50] false, buffers 1 0.005))
      = (schedule [100.5] [50] false, buffers 1 0.005))
  /\ (raises (set_data_from_stimulation_backend (kernel_at 60) [50; 10]
                (schedule [100.5] [50] false, buffers 1 0.005)) NotInFuture
      /\ snd (set_data_from_stimulation_backend (kernel_at 60) [50; 10]
                (schedule [100.5] [50] false, buffers 1 0.005))
         = (schedule [100.5] [50] false, buffers 1 0.005)).
Proof.
  split; split.
  - vm_compute; reflexivity.
  - apply (proj1 (failed_configuration_leaves_state_unchanged
                    (kernel_at 60) (schedule [100.5] [50] false)
                    (buffers 1 0.005) NonMonotonic)).
    vm_compute; reflexivity.
  - vm_compute; reflexivity.
  - apply (proj2 (failed_configuration_leaves_state_unchanged
                    (kernel_at 60) (schedule [100.5] [50] false)
                    (buffers 1 0.005) NotInFuture)).
    vm_compute; reflexivity.
Defined.

End Examples_C1.

Section Building.

Context `{TA : TimeAPI}.
Variable K : Kernel.

Lemma build_after_sound (allow : bool) (ts : list Q) :
  forall (prev : Time) (al : list Time),
    build_after K allow prev ts = inr al ->
    Forall2 (fun t a => aligned_time K allow t = inr a) ts al
    /\ increasing_from prev al = true.
Proof.
  induction ts as [|t ts IH]; intros prev al; cbn [build_after].
  - intros [= <-]. split; [constructor | reflexivity].
  - destruct (aligned_time K allow t) as [e|a] eqn:Ha; [discriminate|].
    destruct (Time_ge prev a) eqn:Hge; [discriminate|].
    destruct (build_after K allow a ts) as [e|l] eqn:Hb; [discriminate|].
    intros [= <-]. destruct (IH a l Hb) as [HF Hinc]. split.
    + constructor; assumption.
    + cbn [increasing_from]. rewrite Hge, Hinc. reflexivity.
Qed.

Lemma build_schedule_sound (allow : bool) (ts : list Q) (al : list Time) :
  build_schedule K allow ts = inr al ->
  Forall2 (fun t a => aligned_time K allow t = inr a) ts al
  /\ strictly_increasing al = true.
Proof.
  destruct ts as [|t ts]; cbn [build_schedule].
  - intros [= <-]. split; [constructor | reflexivity].
  - destruct (aligned_time K allow t) as [e|a] eqn:Ha; [discriminate|].
    destruct (build_after K allow a ts) as [e|l] eqn:Hb; [discriminate|].
    intros [= <-]. destruct (build_after_sound allow ts a l Hb) as [HF Hinc].
    split; [constructor; assumption | exact Hinc].
Qed.

Lemma build_after_of_aligned (allow : bool) (ts : list Q) (al : list Time) :
  Forall2 (fun t a => aligned_time K allow t = inr a) ts al ->
  forall prev : Time,
    build_after K allow prev ts
    = if increasing_from prev al then inr al else inl NonMonotonic.
Proof.
  induction 1 as [|t a ts al Ha _ IH]; intros prev; cbn [build_after increasing_from].
  - reflexivity.
  - rewrite Ha. destruct (Time_ge prev a); [reflexivity|]. cbn [negb andb].
    rewrite IH. destruct (increasing_from a al); reflexivity.
Qed.

Lemma build_schedule_of_aligned (allow : bool) (ts : list Q) (al : list Time) :
  Forall2 (fun t a => aligned_time K allow t = inr a) ts al ->
  build_schedule K allow ts
  = if strictly_increasing al then inr al else inl NonMonotonic.
Proof.
  intros HF. destruct HF as [|t a ts al Ha HF]; cbn [build_schedule strictly_increasing].
  - reflexivity.
  - rewrite Ha, (build_after_of_aligned allow ts al HF a).
    destruct (increasing_from a al); reflexivity.
Qed.

(** The first failure in input order decides: once a prefix of the
    input has aligned times that are not strictly increasing, the rest
    of the input is never looked at. *)
Lemma build_after_prefix (allow : bool) (pre rest : list Q) (al : list Time) :
  Forall2 (fun t a => aligned_time K allow t = inr a) pre al ->
  forall prev : Time,
    increasing_from prev al = false ->
    build_after K allow prev (pre ++ rest) = inl NonMonotonic.
Proof.
  induction 1 as [|t a pre al Ha _ IH]; intros prev Hinc.
  - discriminate.
  - cbn [app build_after]. rewrite Ha.
    cbn [increasing_from] in Hinc.
    destruct (Time_ge prev a); [reflexivity|].
    cbn [negb andb] in Hinc. rewrite (IH a Hinc). reflexivity.
Qed.

Lemma build_schedule_prefix (allow : bool) (pre rest : list Q) (al : list Time) :
  Forall2 (fun t a => aligned_time K allow t = inr a) pre al ->
  strictly_increasing al = false ->
  build_schedule K allow (pre ++ rest) = inl NonMonotonic.
Proof.
  intros HF Hinc. destruct HF as [|t a pre al Ha HF]; [discriminate|].
  cbn [app build_schedule]. rewrite Ha.
  cbn [strictly_increasing] in Hinc.
  rewrite (build_after_prefix allow pre rest al HF a Hinc). reflexivity.
Qed.

(** A call with no times, or with neither key. *)
Lemma set_empty_times (vs : list Q) (flag : option bool)
    (P : Parameters_) (B : Buffers_) :
  let d := {| d_rate_times := Some []; d_rate_values := Some vs;
              d_allow_offgrid_times := flag |} in
  set K d (P, B) = (inr tt, (mkParameters (rate_times_ P) vs (policy_after d P), B)).
Proof.
  unfold set, updateValue_rate_values, policy_after; exc_unfold.
  destruct flag as [f|]; cbn; rewrite ?andb_false_r; reflexivity.
Qed.

Lemma set_no_schedule_keys (flag : option bool) (P : Parameters_) (B : Buffers_) :
  let d := {| d_rate_times := None; d_rate_values := None;
              d_allow_offgrid_times := flag |} in
  rate_times_ (fst (snd (set K d (P, B)))) = rate_times_ P
  /\ rate_values_ (fst (snd (set K d (P, B)))) = rate_values_ P.
Proof.
  unfold set, updateValue_rate_values; exc_unfold.
  destruct flag as [f|]; cbn; [|split; reflexivity].
  destruct (xorb f (allow_offgrid_times_ P) && negb (is_empty (rate_times_ P)));
    cbn; split; reflexivity.
Qed.

Lemma set_asymmetric (d : Dictionary) (P : Parameters_) (B : Buffers_) :
  known (d_rate_times d) <> known (d_rate_values d) ->
  failed (set K d (P, B)) = true.
Proof.
  unfold set, updateValue_rate_values, failed; exc_unfold.
  destruct d as [[dt|] [dv|] [f|]]; cbn; try congruence; intros _;
    rewrite ?andb_false_r; cbn;
    repeat match goal with
      | |- context [if (?b && ?c)%bool then _ else _] => destruct (b && c)%bool; cbn
      end; reflexivity.
Qed.

Lemma Forall2_length_eq {A B} (R : A -> B -> Prop) (l : list A) (l' : list B) :
  Forall2 R l l' -> length l = length l'.
Proof.
  induction 1; cbn; congruence.
Qed.

(** A successful [set] keeps the invariant, except when it was given an
    empty list of times together with values of another length than
    the stored schedule. *)
Lemma set_preserves_invariant (d : Dictionary) (P : Parameters_) (B : Buffers_) :
  schedule_invariant P = true ->
  fst (set K d (P, B)) = inr tt ->
  (forall vs, d_rate_times d = Some [] -> d_rate_values d = Some vs ->
              length vs = length (rate_times_ P)) ->
  schedule_invariant (fst (snd (set K d (P, B)))) = true.
Proof.
  intros Hinv Hok Hempty.
  destruct d as [dt dv df].
  destruct dt as [[|t ts]|], dv as [vs|].
  - rewrite set_empty_times. cbn [fst snd].
    unfold schedule_invariant in *. cbn [rate_times_ rate_values_].
    apply andb_true_iff in Hinv. destruct Hinv as [_ Hs]. rewrite Hs.
    rewrite (Hempty vs eq_refl eq_refl), Nat.eqb_refl. reflexivity.
  - assert (Hf := set_asymmetric (mkDictionary (Some []) None df) P B ltac:(cbn; discriminate)).
    unfold failed in Hf. rewrite Hok in Hf. discriminate Hf.
  - destruct (Nat.eq_dec (length (t :: ts)) (length vs)) as [Hlen|Hlen].
    + pose proof (set_nontrivial K (mkDictionary (Some (t :: ts)) (Some vs) df)
                    P B t ts vs eq_refl eq_refl Hlen) as Hset.
      destruct (build_schedule K _ (t :: ts)) as [e|al] eqn:Hb.
      * destruct Hset as [He _]. congruence.
      * rewrite Hset. cbn [fst snd]. unfold schedule_invariant.
        cbn [rate_times_ rate_values_].
        destruct (build_schedule_sound _ _ _ Hb) as [HF Hs]. rewrite Hs.
        apply Forall2_length_eq in HF. rewrite <- HF, Hlen, Nat.eqb_refl.
        reflexivity.
    + exfalso. revert Hok.
      unfold set, updateValue_rate_values; exc_unfold.
      apply Nat.eqb_neq in Hlen.
      destruct df as [f|];
        cbn -[Nat.eqb length assert_valid_rate_time_and_insert set_loop];
        rewrite ?andb_false_r;
        cbn -[Nat.eqb length assert_valid_rate_time_and_insert set_loop];
        rewrite Hlen; cbn; discriminate.
  - assert (Hf := set_asymmetric (mkDictionary (Some (t :: ts)) None df) P B ltac:(cbn; discriminate)).
    unfold failed in Hf. rewrite Hok in Hf. discriminate Hf.
  - assert (Hf := set_asymmetric (mkDictionary None (Some vs) df) P B ltac:(cbn; discriminate)).
    unfold failed in Hf. rewrite Hok in Hf. discriminate Hf.
  - destruct (set_no_schedule_keys df P B) as [Ht Hv].
    unfold schedule_invariant in *. rewrite Ht, Hv. exact Hinv.
Qed.

End Building.

(** C2.  What [Parameters_::set] does on a call that supplies values
    [vs] and an empty list of times: it returns normally, [rate_times_]
    and the cursor are unchanged, but [rate_values_] has been replaced
    by the supplied [vs] (and the off-grid flag by the supplied one, if
    any).  The call is a no-op only when [vs] happens to equal the
    stored values. *)
Theorem set_empty_times_replaces_rate_values `{TA : TimeAPI}
    (K : Kernel) (P : Parameters_) (B : Buffers_)
    (vs : list Q) (flag : option bool) :
  set K {| d_rate_times := Some []; d_rate_values := Some vs;
           d_allow_offgrid_times := flag |} (P, B)
  = (inr tt,
     ({| rate_times_ := rate_times_ P;
         rate_values_ := vs;
         allow_offgrid_times_ :=
           match flag with Some f => f | None => allow_offgrid_times_ P end |},
      B)).
Proof.
  rewrite (set_empty_times K vs flag P B). unfold policy_after.
  cbn [d_allow_offgrid_times]. reflexivity.
Qed.

(** The normal return is committed by the caller. *)
Lemma set_status_empty_times `{TA : TimeAPI}
    (K : Kernel) (P : Parameters_) (B : Buffers_)
    (vs : list Q) (flag : option bool) :
  set_status K {| d_rate_times := Some []; d_rate_values := Some vs;
                  d_allow_offgrid_times := flag |} (P, B)
  = set K {| d_rate_times := Some []; d_rate_values := Some vs;
             d_allow_offgrid_times := flag |} (P, B).
Proof.
  unfold set_status. cbn [fst snd].
  rewrite (set_empty_times K vs flag P B). reflexivity.
Qed.

Section Examples_C2.

Local Open Scope Q_scope.

(** [set( times = [], rates = [] )] on a schedule with one breakpoint
    wipes the stored rate and keeps the stored time. *)
Lemma set_empty_times_empty_rates_example :
  set_status (kernel_at 0) (dict (Some []) (Some []) None)
             (schedule [100.5] [50] false, buffers 0 0)
  = (inr tt, (schedule [100.5] [] false, buffers 0 0)).
Proof.
  unfold dict. rewrite set_status_empty_times.
  rewrite (set_empty_times (kernel_at 0) [] None
             (schedule [100.5] [50] false) (buffers 0 0)).
  reflexivity.
Qed.

End Examples_C2.

Lemma update_asserts_sizes `{TA : TimeAPI} (K : Kernel) (is_active : Time -> bool)
    (P : Parameters_) (origin : Time) (from to : Z) (B : Buffers_) :
  length (rate_times_ P) <> length (rate_values_ P) ->
  update K is_active P origin from to B = (inl ConsistencyViolation, B).
Proof.
  intros Hneq. apply Nat.eqb_neq in Hneq.
  unfold update; exc_unfold. rewrite Hneq.
  destruct ((0 <=? to) && (from <? get_min_delay K)); [|reflexivity].
  destruct (from <? to); reflexivity.
Qed.

(** C3.  The invariant "as many values as times, times strictly
    increasing" is not preserved by every [set] call: a call with an
    empty list of times and a list of values whose length differs from
    the stored schedule returns normally and leaves [rate_times_] and
    [rate_values_] of different lengths; an [update] on that state
    stops at its assert on the two sizes. *)
Theorem set_empty_times_breaks_invariant `{TA : TimeAPI}
    (K : Kernel) (is_active : Time -> bool) (P : Parameters_) (B : Buffers_)
    (vs : list Q) (flag : option bool) (origin : Time) (from to : Z) :
  schedule_invariant P = true ->
  length vs <> length (rate_times_ P) ->
  let r := set K {| d_rate_times := Some []; d_rate_values := Some vs;
                    d_allow_offgrid_times := flag |} (P, B) in
  fst r = inr tt
  /\ schedule_invariant (fst (snd r)) = false
  /\ fst (update K is_active (fst (snd r)) origin from to (snd (snd r)))
     = inl ConsistencyViolation.
Proof.
  intros Hinv Hlen r. subst r.
  rewrite (set_empty_times K vs flag P B). cbn [fst snd].
  split; [reflexivity|]. split.
  - unfold schedule_invariant. cbn [rate_times_ rate_values_].
    replace (length (rate_times_ P) =? length vs)%nat with false; [reflexivity|].
    symmetry. apply Nat.eqb_neq. congruence.
  - rewrite update_asserts_sizes; [reflexivity|].
    cbn [rate_times_ rate_values_]. congruence.
Qed.

Section Examples_C3.

Local Open Scope Q_scope.

(** A freshly constructed generator, then
    [set( times = [], rates = [5.0] )]. *)
Lemma set_empty_times_breaks_invariant_witness :
  fst (set (kernel_at 0) (dict (Some []) (Some [5]) None)
         (Parameters_default, init_buffers_ (buffers 0 0))) = inr tt
  /\ schedule_invariant
       (fst (snd (set (kernel_at 0) (dict (Some []) (Some [5]) None)
                    (Parameters_default, init_buffers_ (buffers 0 0))))) = false
  /\ fst (update (kernel_at 0) always_active
            (fst (snd (set (kernel_at 0) (dict (Some []) (Some [5]) None)
                         (Parameters_default, init_buffers_ (buffers 0 0)))))
            (0 : @Time G01) 0 1
            (snd (snd (set (kernel_at 0) (dict (Some []) (Some [5]) None)
                         (Parameters_default, init_buffers_ (buffers 0 0))))))
     = inl ConsistencyViolation.
Proof.
  apply (set_empty_times_breaks_invariant (kernel_at 0) always_active
           Parameters_default (init_buffers_ (buffers 0 0)) [5] None
           (0 : @Time G01) 0%Z 1%Z).
  - reflexivity.
  - cbn. discriminate.
Defined.

(** The same through [set_status]: the broken state is the stored one. *)
Lemma set_status_breaks_invariant_example :
  set_status (kernel_at 0) (dict (Some []) (Some [5]) None)
             (Parameters_default, init_buffers_ (buffers 0 0))
  = (inr tt, (schedule [] [5] false, buffers 0 0)).
Proof.
  unfold dict. rewrite set_status_empty_times.
  rewrite (set_empty_times (kernel_at 0) [5] None
             Parameters_default (init_buffers_ (buffers 0 0))).
  reflexivity.
Qed.

End Examples_C3.

Section InvariantElsewhere.

Context `{TA : TimeAPI}.
Variable K : Kernel.

(** Construction establishes the invariant. *)
Lemma default_invariant : schedule_invariant Parameters_default = true.
Proof. reflexivity. Qed.

(** [set_status] keeps it, the one case of C3 apart, on success and on
    failure. *)
Lemma set_status_preserves_invariant (d : Dictionary) (P : Parameters_)
    (B : Buffers_) :
  schedule_invariant P = true ->
  (forall vs, d_rate_times d = Some [] -> d_rate_values d = Some vs ->
              length vs = length (rate_times_ P)) ->
  schedule_invariant (fst (snd (set_status K d (P, B)))) = true.
Proof.
  intros Hinv Hempty.
  destruct (fst (set_status K d (P, B))) as [e|[]] eqn:Hr.
  - rewrite (proj2 (set_status_failure K d P B e Hr)). exact Hinv.
  - rewrite (set_status_success K d P B Hr).
    apply set_preserves_invariant; try assumption.
    rewrite <- (set_status_success K d P B Hr). exact Hr.
Qed.

Lemma half_length_pos {A} (l : list A) :
  l <> [] -> (length l mod 2 =? 0)%nat = true -> (1 <= length l / 2)%nat.
Proof.
  intros Hne Heven. apply Nat.div_le_lower_bound; [lia|].
  destruct l as [|a [|b l]]; [congruence | cbn in Heven; discriminate |].
  cbn [length]. lia.
Qed.

(** X11.  [set_data_from_stimulation_backend] keeps the invariant of
    the schedule (as many values as times, times strictly increasing),
    whether it returns normally or throws, for every update. *)
Lemma backend_preserves_invariant (upd : list Q) (P : Parameters_) (B : Buffers_) :
  schedule_invariant P = true ->
  schedule_invariant
    (fst (snd (set_data_from_stimulation_backend K upd (P, B)))) = true.
Proof.
  intros Hinv. destruct upd as [|u upd]; [exact Hinv|].
  destruct (length (u :: upd) mod 2 =? 0)%nat eqn:Heven.
  - rewrite backend_unfold by exact Heven.
    pose proof (set_preserves_invariant K (backend_dictionary P (u :: upd)) P B Hinv)
      as Hset.
    destruct (set K (backend_dictionary P (u :: upd)) (P, B))
      as [[e|[]] [P' B']]; cbn [fst snd] in *; [exact Hinv|].
    apply Hset; [reflexivity|].
    intros vs Hnil _. exfalso.
    pose proof (half_length_pos (u :: upd) ltac:(discriminate) Heven) as Hpos.
    unfold backend_dictionary in Hnil. cbn [d_rate_times] in Hnil.
    remember (length (u :: upd) / 2)%nat as n eqn:Hn. clear Hn.
    injection Hnil as Hnil. apply app_eq_nil in Hnil. destruct Hnil as [_ Hnil].
    apply (f_equal (@length Q)) in Hnil. rewrite length_map, length_seq in Hnil.
    cbn [length] in Hnil. lia.
  - unfold set_data_from_stimulation_backend.
    cbn [fst snd is_empty negb]. rewrite Heven. exact Hinv.
Qed.

End InvariantElsewhere.

(** ** The grid *)

Section GridFacts.

Local Open Scope Q_scope.

Variable h : Q.
Hypothesis h_pos : 0 < h.

Lemma h_nonzero : ~ h == 0.
Proof.
  intros H. rewrite H in h_pos. exact (Qlt_irrefl 0 h_pos).
Qed.

(** On the grid means: an integer multiple of the step. *)
Lemma on_grid_iff (x : Q) :
  Grid.on_grid h x = true <-> exists k : Z, x == inject_Z k * h.
Proof.
  unfold Grid.on_grid, Grid.steps_of. rewrite Qeq_bool_iff. split.
  - intros H. exists (Qfloor (x / h)). rewrite H.
    rewrite Qmult_comm. symmetry. apply Qmult_div_r. exact h_nonzero.
  - intros [k Hk].
    assert (Hq : x / h == inject_Z k).
    { rewrite Hk. apply Qdiv_mult_l. exact h_nonzero. }
    rewrite (Qfloor_comp _ _ Hq), Qfloor_Z. symmetry. exact Hq.
Qed.

Lemma round_up_on_grid (x : Q) : Grid.on_grid h (Grid.round_up h x) = true.
Proof.
  apply on_grid_iff. exists (Qceiling (Grid.steps_of h x)). reflexivity.
Qed.

Lemma round_up_ge (x : Q) : x <= Grid.round_up h x.
Proof.
  unfold Grid.round_up, Grid.steps_of.
  assert (Hx : x == x / h * h).
  { rewrite Qmult_comm. symmetry. apply Qmult_div_r. exact h_nonzero. }
  rewrite Hx at 1. apply Qmult_le_compat_r.
  - apply Qle_ceiling.
  - apply Qlt_le_weak. exact h_pos.
Qed.

Lemma steps_of_le (x y : Q) : x <= y -> Grid.steps_of h x <= Grid.steps_of h y.
Proof.
  intros Hxy. unfold Grid.steps_of, Qdiv. apply Qmult_le_compat_r; [exact Hxy|].
  apply Qinv_le_0_compat, Qlt_le_weak, h_pos.
Qed.

Lemma round_up_least (x g : Q) :
  Grid.on_grid h g = true -> x <= g -> Grid.round_up h x <= g.
Proof.
  intros Hg Hxg. apply on_grid_iff in Hg. destruct Hg as [k Hk].
  unfold Grid.round_up. rewrite Hk. apply Qmult_le_compat_r.
  - rewrite <- Zle_Qle.
    assert (Hq : Grid.steps_of h g == inject_Z k).
    { unfold Grid.steps_of. rewrite Hk. apply Qdiv_mult_l. exact h_nonzero. }
    rewrite <- (Qceiling_Z k), <- (Qceiling_comp _ _ Hq).
    apply Qceiling_resp_le, steps_of_le, Hxg.
  - apply Qlt_le_weak. exact h_pos.
Qed.

(** Rounding up leaves a grid time where it is. *)
Lemma round_up_on_grid_id (x : Q) :
  Grid.on_grid h x = true -> Grid.round_up h x == x.
Proof.
  intros Hg. apply Qle_antisym.
  - apply round_up_least; [exact Hg | apply Qle_refl].
  - apply round_up_ge.
Qed.

(** The step of the [k]-th grid time is [k]. *)
Lemma get_steps_grid (k : Z) (x : Q) :
  x == inject_Z k * h -> @get_steps (Grid.GridTime h) x = k.
Proof.
  intros Hk. cbn [get_steps Grid.GridTime].
  assert (Hq : Grid.steps_of h x == inject_Z k).
  { unfold Grid.steps_of. rewrite Hk. apply Qdiv_mult_l. exact h_nonzero. }
  rewrite (Qceiling_comp _ _ Hq). apply Qceiling_Z.
Qed.

End GridFacts.

(** C6.  Grid alignment policy, on a grid of step [h > 0] and for a
    time [t] that passes the future check: a [t] on the grid is stored
    unchanged; an off-grid [t] is refused with [NotGridAligned] when
    [allow_offgrid_times_] is false, and stored as the smallest grid
    time greater than or equal to [t] when it is true; every stored
    time is an integer multiple of the step, and not before [t]. *)
Theorem grid_alignment_policy (h : Q) (K : @Kernel (Grid.GridTime h))
    (P : @Parameters_ (Grid.GridTime h)) (t : Q) :
  (0 < h)%Q ->
  (get_ms (get_time K) < t)%Q ->
  let r := assert_valid_rate_time_and_insert K t P in
  (Grid.on_grid h t = true ->
   r = (inr tt, @push_back_rate_time (Grid.GridTime h) t P))
  /\ (Grid.on_grid h t = false -> allow_offgrid_times_ P = false ->
      r = (inl NotGridAligned, P))
  /\ (Grid.on_grid h t = false -> allow_offgrid_times_ P = true ->
      r = (inr tt, @push_back_rate_time (Grid.GridTime h) (Grid.round_up h t) P)
      /\ Grid.on_grid h (Grid.round_up h t) = true
      /\ (t <= Grid.round_up h t)%Q
      /\ forall g : Q, Grid.on_grid h g = true -> (t <= g)%Q ->
                       (Grid.round_up h t <= g)%Q)
  /\ (forall P', r = (inr tt, P') ->
      exists (a : Q) (k : Z),
        rate_times_ P' = rate_times_ P ++ [a]
        /\ (a == inject_Z k * h)%Q /\ (t <= a)%Q).
Proof.
  intros Hh Hfut r. subst r. rewrite insert_aligned_time.
  unfold aligned_time. cbn [Time_ms Time_ms_stamp is_grid_time get_ms Grid.GridTime] in *.
  assert (Hle : Qle_bool t (get_time K) = false).
  { destruct (Qle_bool t (get_time K)) eqn:E; [|reflexivity].
    apply Qle_bool_iff in E. exfalso. exact (Qlt_not_le _ _ Hfut E). }
  rewrite Hle. rewrite (round_up_on_grid h Hh t).
  split; [|split; [|split]].
  - intros Hg. rewrite Hg. reflexivity.
  - intros Hg Ha. rewrite Hg, Ha. reflexivity.
  - intros Hg Ha. rewrite Hg, Ha. split; [reflexivity|].
    split; [reflexivity|].
    split; [apply round_up_ge; exact Hh|].
    intros g Hgg Htg. apply round_up_least; assumption.
  - intros P'. destruct (Grid.on_grid h t) eqn:Hg.
    + intros [= <-]. apply (on_grid_iff h Hh) in Hg. destruct Hg as [k Hk].
      exists t, k. split; [reflexivity|]. split; [exact Hk | apply Qle_refl].
    + destruct (allow_offgrid_times_ P); [|discriminate].
      intros [= <-]. exists (Grid.round_up h t), (Qceiling (Grid.steps_of h t)).
      split; [reflexivity|]. split; [reflexivity | apply round_up_ge; exact Hh].
Qed.

Section Examples_C6.

Local Open Scope Q_scope.

(** At resolution 0.1 ms, 100.55 ms is stored as 100.6 ms when
    off-grid times are allowed. *)
Lemma grid_alignment_policy_witness :
  assert_valid_rate_time_and_insert (kernel_at 0) 100.55 (schedule [] [] true)
  = (inr tt, @push_back_rate_time G01 (Grid.round_up (1 # 10) 100.55)
               (schedule [] [] true))
  /\ Grid.on_grid (1 # 10) (Grid.round_up (1 # 10) 100.55) = true
  /\ 100.55 <= Grid.round_up (1 # 10) 100.55
  /\ forall g : Q, Grid.on_grid (1 # 10) g = true -> 100.55 <= g ->
                   Grid.round_up (1 # 10) 100.55 <= g.
Proof.
  refine (proj1 (proj2 (proj2
            (grid_alignment_policy (1 # 10) (kernel_at 0) (schedule [] [] true)
                                   100.55 _ _))) _ _);
    reflexivity.
Defined.

Lemma round_up_example : Grid.round_up (1 # 10) 100.55 == 100.6.
Proof. reflexivity. Qed.

(** At resolution 0.1 ms, 100.5 ms and 200 ms are on the grid. *)
Lemma on_grid_examples :
  Grid.on_grid (1 # 10) 100.5 = true /\ Grid.on_grid (1 # 10) 200 = true
  /\ Grid.on_grid (1 # 10) 100.55 = false.
Proof. repeat split. Qed.

End Examples_C6.

(** C7.  Future-only acceptance: the insertion of [t] fails with
    [NotInFuture] exactly when [t] is less than or equal to the
    simulation time, and every accepted [t] is strictly greater than
    the simulation time. *)
Theorem insertion_future_only `{TA : TimeAPI} (K : Kernel)
    (P : Parameters_) (t : Q) :
  (raises (assert_valid_rate_time_and_insert K t P) NotInFuture
   <-> (t <= get_ms (get_time K))%Q)
  /\ (fst (assert_valid_rate_time_and_insert K t P) = inr tt ->
      (get_ms (get_time K) < t)%Q).
Proof.
  unfold raises. rewrite insert_aligned_time. split.
  - unfold aligned_time. rewrite <- Qle_bool_iff.
    destruct (Qle_bool t (get_ms (get_time K))); cbn [fst].
    + split; reflexivity.
    + split; [|discriminate].
      destruct (is_grid_time (Time_ms t)); cbn [fst]; [discriminate|].
      destruct (allow_offgrid_times_ P); [|discriminate].
      destruct (is_grid_time (Time_ms_stamp t)); discriminate.
  - destruct (aligned_time K (allow_offgrid_times_ P) t) as [e|a] eqn:Ha;
      cbn [fst]; [discriminate|].
    intros _. exact (aligned_time_in_future K _ _ _ Ha).
Qed.

(** On the grid the stored time, too, is strictly in the future. *)
Lemma stored_time_in_future (h : Q) (K : @Kernel (Grid.GridTime h))
    (allow : bool) (t a : Q) :
  (0 < h)%Q ->
  aligned_time K allow t = inr a ->
  (get_ms (get_time K) < a)%Q.
Proof.
  intros Hh Ha. pose proof (aligned_time_in_future K _ _ _ Ha) as Hfut.
  revert Ha. unfold aligned_time.
  cbn [Time_ms Time_ms_stamp is_grid_time get_ms Grid.GridTime] in *.
  destruct (Qle_bool t (get_time K)); [discriminate|].
  destruct (Grid.on_grid h t).
  - intros [= <-]. exact Hfut.
  - destruct allow; [|discriminate].
    destruct (Grid.on_grid h (Grid.round_up h t)); [|discriminate].
    intros [= <-]. eapply Qlt_le_trans; [exact Hfut|].
    apply round_up_ge. exact Hh.
Qed.

Section Monotonicity.

Context `{TA : TimeAPI}.

(** [increasing_from] and [strictly_increasing], index by index. *)
Lemma increasing_from_adjacent (d : Time) (l : list Time) :
  forall prev : Time,
    increasing_from prev l = true
    <-> (forall i : nat, (i < length l)%nat ->
           Time_ge (nth i (prev :: l) d) (nth i l d) = false).
Proof.
  induction l as [|a l IH]; intros prev; cbn [increasing_from length].
  - split; [intros _ i Hi; lia | reflexivity].
  - rewrite andb_true_iff, negb_true_iff, IH. split.
    + intros [Hpa Hl] [|i] Hi; [exact Hpa|].
      cbn [nth]. apply Hl. lia.
    + intros H. split.
      * apply (H 0%nat). lia.
      * intros i Hi. apply (H (S i)). lia.
Qed.

Lemma strictly_increasing_adjacent (d : Time) (l : list Time) :
  strictly_increasing l = true
  <-> (forall i : nat, (S i < length l)%nat ->
         Time_ge (nth i l d) (nth (S i) l d) = false).
Proof.
  destruct l as [|a l]; cbn [strictly_increasing length].
  - split; [intros _ i Hi; lia | reflexivity].
  - rewrite (increasing_from_adjacent d). split.
    + intros H i Hi. apply H. lia.
    + intros H i Hi. apply H. lia.
Qed.

End Monotonicity.

(** C5.  Given-order monotonicity.  On a call of [set] that supplies
    values and a non-empty list of times of the same length:
    (1) if the times of some prefix of the input all have an aligned
    time (each passes the future and grid checks) and one of these
    aligned times is not strictly greater than the aligned time just
    before it in the input, the call fails with [NonMonotonic];
    (2) if the call returns normally, the stored times are the aligned
    times of the input, in input order, and strictly increasing. *)
Theorem set_monotonic_in_given_order `{TA : TimeAPI} (K : Kernel)
    (d : Dictionary) (P : Parameters_) (B : Buffers_)
    (t : Q) (ts vs : list Q) :
  d_rate_times d = Some (t :: ts) ->
  d_rate_values d = Some vs ->
  length (t :: ts) = length vs ->
  (forall (pre rest : list Q) (al : list Time) (i : nat),
      t :: ts = pre ++ rest ->
      Forall2 (fun x a => aligned_time K (policy_after d P) x = inr a) pre al ->
      (S i < length al)%nat ->
      Time_ge (nth i al (Time_ms 0%Q)) (nth (S i) al (Time_ms 0%Q)) = true ->
      raises (set K d (P, B)) NonMonotonic)
  /\ (fst (set K d (P, B)) = inr tt ->
      exists al : list Time,
        Forall2 (fun x a => aligned_time K (policy_after d P) x = inr a) (t :: ts) al
        /\ strictly_increasing al = true
        /\ rate_times_ (fst (snd (set K d (P, B)))) = al).
Proof.
  intros Ht Hv Hlen.
  pose proof (set_nontrivial K d P B t ts vs Ht Hv Hlen) as Hset.
  split.
  - intros pre rest al i Hsplit HF Hi Hge.
    assert (Hs : strictly_increasing al = false).
    { destruct (strictly_increasing al) eqn:Hs; [|reflexivity].
      rewrite (strictly_increasing_adjacent (Time_ms 0%Q)) in Hs.
      rewrite (Hs i Hi) in Hge. discriminate. }
    rewrite Hsplit, (build_schedule_prefix K _ pre rest al HF Hs) in Hset.
    exact (proj1 Hset).
  - intros Hok.
    destruct (build_schedule K (policy_after d P) (t :: ts)) as [e|al] eqn:Hb.
    + destruct Hset as [He _]. congruence.
    + exists al. destruct (build_schedule_sound K _ _ _ Hb) as [HF Hs].
      split; [exact HF|]. split; [exact Hs|]. rewrite Hset. reflexivity.
Qed.

Section Examples_C5.

Local Open Scope Q_scope.

(** [set( times = [200.0, 100.5], rates = [100, 50] )] at resolution
    0.1 ms and simulation time 0: both times are valid on their own,
    the second is not after the first, the call fails. *)
Lemma set_monotonic_in_given_order_witness :
  raises (set (kernel_at 0) (dict (Some [200; 100.5]) (Some [100; 50]) None)
              (schedule [] [] false, buffers 0 0)) NonMonotonic.
Proof.
  refine (proj1 (set_monotonic_in_given_order (kernel_at 0)
                   (dict (Some [200; 100.5]) (Some [100; 50]) None)
                   (schedule [] [] false) (buffers 0 0)
                   200 [100.5] [100; 50] eq_refl eq_refl eq_refl)
                [200; 100.5] [] [200; 100.5] 0%nat eq_refl _ _ _).
  - repeat constructor.
  - cbn. lia.
  - reflexivity.
Defined.

(** The same call fails whatever the simulation time and the prior
    state are. *)
Lemma unsorted_example_fails_at_any_time (now : Q)
    (P : @Parameters_ G01) (B : Buffers_) :
  failed (set (kernel_at now) (dict (Some [200; 100.5]) (Some [100; 50]) None)
              (P, B)) = true.
Proof.
  pose proof (set_nontrivial (kernel_at now)
                (dict (Some [200; 100.5]) (Some [100; 50]) None)
                P B 200 [100.5] [100; 50] eq_refl eq_refl eq_refl) as H.
  unfold failed. cbn [build_schedule build_after] in H.
  unfold aligned_time in H.
  cbn [get_ms get_time kernel_at G01 Grid.GridTime Time_ms is_grid_time Time_ge] in H.
  destruct (Qle_bool 200 now).
  - destruct H as [-> _]. reflexivity.
  - change (Grid.on_grid (1 # 10) 200) with true in H. cbv iota in H.
    destruct (Qle_bool 100.5 now).
    + destruct H as [-> _]. reflexivity.
    + change (Grid.on_grid (1 # 10) 100.5) with true in H. cbv iota in H.
      change (Qle_bool 100.5 200) with true in H. cbv iota in H.
      destruct H as [-> _]. reflexivity.
Qed.

End Examples_C5.

Section Revalidation.

Context `{TA : TimeAPI}.
Variable K : Kernel.

(** The order of [Time] values is the order of their instants. *)
Hypothesis Time_order :
  forall a b : Time, Time_ge a b = false -> (get_ms a < get_ms b)%Q.

Lemma increasing_from_lt (l : list Time) :
  forall a b : Time,
    increasing_from a l = true -> In b l -> (get_ms a < get_ms b)%Q.
Proof.
  induction l as [|c l IH]; intros a b Hinc Hin; [contradiction|].
  cbn [increasing_from] in Hinc. apply andb_true_iff in Hinc.
  destruct Hinc as [Hac Hl]. apply negb_true_iff in Hac.
  destruct Hin as [<-|Hin].
  - apply Time_order. exact Hac.
  - eapply Qlt_trans; [apply Time_order; exact Hac|].
    apply IH; assumption.
Qed.

Lemma flatten_pairs_length (pairs : list (Q * Q)) :
  length (flatten_pairs pairs) = (2 * length pairs)%nat.
Proof.
  induction pairs as [|[t r] pairs IH]; cbn [flatten_pairs length]; lia.
Qed.

Lemma nth_flatten_pairs (pairs : list (Q * Q)) :
  forall k : nat,
    nth (k * 2) (flatten_pairs pairs) 0%Q = fst (nth k pairs (0%Q, 0%Q))
    /\ nth (k * 2 + 1) (flatten_pairs pairs) 0%Q = snd (nth k pairs (0%Q, 0%Q)).
Proof.
  induction pairs as [|[t r] pairs IH]; intros k.
  - cbn [flatten_pairs]. destruct k; cbn; split; try reflexivity;
      destruct (k * 2)%nat; try reflexivity; destruct (n + 1)%nat; reflexivity.
  - destruct k as [|k]; [split; reflexivity|].
    cbn [flatten_pairs Nat.mul Nat.add nth]. apply IH.
Qed.

(** The candidate handed to [set]: the stored times, read back in ms,
    followed by the new times; the stored values followed by the new
    ones. *)
Lemma backend_dictionary_pairs (P : Parameters_) (pairs : list (Q * Q)) :
  d_rate_times (backend_dictionary P (flatten_pairs pairs))
  = Some (map get_ms (rate_times_ P) ++ map fst pairs)
  /\ (length (rate_times_ P) = length (rate_values_ P) ->
      d_rate_values (backend_dictionary P (flatten_pairs pairs))
      = Some (rate_values_ P ++ map snd pairs)).
Proof.
  unfold backend_dictionary. cbn [d_rate_times d_rate_values].
  rewrite flatten_pairs_length, Nat.mul_comm, Nat.div_mul by lia.
  split.
  - f_equal. f_equal. rewrite <- (map_nth_seq fst pairs (0%Q, 0%Q)).
    apply map_ext. intros k. apply nth_flatten_pairs.
  - intros Hsize. rewrite Hsize. f_equal. f_equal.
    + rewrite (map_nth_seq (fun x => x)). apply map_id.
    + rewrite <- (map_nth_seq snd pairs (0%Q, 0%Q)).
      apply map_ext. intros k. apply nth_flatten_pairs.
Qed.

Lemma backend_first_in_past (P : Parameters_) (B : Buffers_)
    (t1 : Time) (rest : list Time) (u : Q) (upd : list Q) :
  rate_times_ P = t1 :: rest ->
  (get_ms t1 <= get_ms (get_time K))%Q ->
  (length (u :: upd) mod 2 =? 0)%nat = true ->
  raises (set_data_from_stimulation_backend K (u :: upd) (P, B)) NotInFuture
  /\ snd (set_data_from_stimulation_backend K (u :: upd) (P, B)) = (P, B).
Proof.
  intros Htimes Hpast Heven. unfold raises.
  rewrite backend_unfold by exact Heven.
  set (d := backend_dictionary P (u :: upd)).
  assert (Hset : fst (set K d (P, B)) = inl NotInFuture
                 /\ snd (snd (set K d (P, B))) = B).
  { pose proof (set_nontrivial K d P B (get_ms t1)) as Hset.
    unfold d, backend_dictionary in Hset. cbn [d_rate_times d_rate_values] in Hset.
    rewrite Htimes in Hset. cbn [map app] in Hset.
    specialize (Hset _ _ eq_refl eq_refl).
    cbn [build_schedule] in Hset. unfold aligned_time in Hset.
    apply Qle_bool_iff in Hpast. rewrite Hpast in Hset.
    unfold d, backend_dictionary. rewrite Htimes. apply Hset.
    cbn [length]. rewrite !length_app, !length_map, !length_seq.
    cbn [length]. reflexivity. }
  destruct (set K d (P, B)) as [[e|[]] [P' B']]; cbn [fst snd] in *.
  - destruct Hset as [[= ->] ->]. split; reflexivity.
  - destruct Hset as [Hset _]. discriminate.
Qed.

Lemma backend_odd (upd : list Q) (P : Parameters_) (B : Buffers_) :
  (length upd mod 2 =? 0)%nat = false ->
  set_data_from_stimulation_backend K upd (P, B) = (inl OddPairCount, (P, B)).
Proof.
  intros Hodd. destruct upd as [|u upd]; [cbn in Hodd; discriminate|].
  unfold set_data_from_stimulation_backend.
  cbn [fst snd is_empty negb]. rewrite Hodd. reflexivity.
Qed.

End Revalidation.

(** C10.  [set_data_from_stimulation_backend] re-validates the stored
    breakpoints: when the stored times are strictly increasing and the
    simulation time has reached the time of one of them, every
    non-empty update of (time, rate) pairs fails with [NotInFuture] --
    wherever the new pairs lie -- and the stored state is unchanged. *)
Theorem backend_revalidates_stored_times `{TA : TimeAPI} (K : Kernel)
    (P : Parameters_) (B : Buffers_) (tb : Time) (pairs : list (Q * Q)) :
  (forall a b : Time, Time_ge a b = false -> (get_ms a < get_ms b)%Q) ->
  strictly_increasing (rate_times_ P) = true ->
  In tb (rate_times_ P) ->
  (get_ms tb <= get_ms (get_time K))%Q ->
  pairs <> [] ->
  raises (set_data_from_stimulation_backend K (flatten_pairs pairs) (P, B))
         NotInFuture
  /\ snd (set_data_from_stimulation_backend K (flatten_pairs pairs) (P, B))
     = (P, B).
Proof.
  intros Hord Hinc Hin Hpast Hne.
  destruct (rate_times_ P) as [|t1 rest] eqn:Htimes; [contradiction|].
  assert (Hfirst : (get_ms t1 <= get_ms (get_time K))%Q).
  { destruct Hin as [<-|Hin]; [exact Hpast|].
    eapply Qle_trans; [|exact Hpast]. apply Qlt_le_weak.
    cbn [strictly_increasing] in Hinc.
    exact (increasing_from_lt Hord rest t1 tb Hinc Hin). }
  pose proof (flatten_pairs_length pairs) as Hlen.
  destruct pairs as [|[t r] pairs]; [congruence|].
  cbn [flatten_pairs] in *.
  apply (backend_first_in_past K P B t1 rest); try assumption.
  rewrite Hlen. apply Nat.eqb_eq.
  rewrite Nat.mul_comm. apply Nat.Div0.mod_mul.
Qed.

Section Examples_C10.

Local Open Scope Q_scope.

Lemma G01_order (a b : @Time G01) :
  Time_ge a b = false -> get_ms a < get_ms b.
Proof.
  cbn [Time_ge get_ms G01 Grid.GridTime]. intros H.
  apply Qnot_le_lt. intros Hc. apply Qle_bool_iff in Hc. congruence.
Defined.

(** A breakpoint at 50 ms, simulation time 60 ms: the update
    [(70 ms, 20)] is refused although 70 ms is in the future. *)
Lemma backend_revalidates_stored_times_witness :
  raises (set_data_from_stimulation_backend (kernel_at 60)
            (flatten_pairs [(70, 20)])
            (schedule [50] [10] false, buffers 1 0.01)) NotInFuture
  /\ snd (set_data_from_stimulation_backend (kernel_at 60)
            (flatten_pairs [(70, 20)])
            (schedule [50] [10] false, buffers 1 0.01))
     = (schedule [50] [10] false, buffers 1 0.01).
Proof.
  apply (backend_revalidates_stored_times (kernel_at 60)
           (schedule [50] [10] false) (buffers 1 0.01) (50 : @Time G01)
           [(70, 20)] G01_order).
  - reflexivity.
  - left. reflexivity.
  - cbn. discriminate.
  - discriminate.
Defined.

(** The example of the design document: [merge_and_apply([50.0, 10.0])]
    at simulation time 60 ms, here on an empty schedule. *)
Lemma backend_past_update_example :
  set_data_from_stimulation_backend (kernel_at 60) [50; 10]
    (Parameters_default, buffers 0 0)
  = (inl NotInFuture, (Parameters_default, buffers 0 0)).
Proof. vm_compute. reflexivity. Qed.

End Examples_C10.

(** ** Stepping *)

Section Stepping.

Context `{TA : TimeAPI}.
Variable is_active : Time -> bool.
Variable P : Parameters_.
Variable t0 : Z.


Lemma update_step_fires (B : Buffers_) (offs : Z) :
  (idx_ B < length (rate_times_ P))%nat ->
  step_at P (idx_ B) = t0 + offs + 1 ->
  fst (update_step is_active P t0 B offs)
  = {| idx_ := S (idx_ B);
       rate_ := (nth (idx_ B) (rate_values_ P) 0 / 1000)%Q |}.
Proof.
  intros Hidx Hstep. unfold update_step. unfold step_at in Hstep.
  apply Nat.ltb_lt in Hidx. rewrite Hidx, Hstep, Z.eqb_refl. cbn [andb].
  destruct (negb _ && _); reflexivity.
Qed.

Lemma update_step_idle (B : Buffers_) (offs : Z) :
  ((idx_ B < length (rate_times_ P))%nat -> step_at P (idx_ B) <> t0 + offs + 1) ->
  fst (update_step is_active P t0 B offs) = B.
Proof.
  intros Hidle. unfold update_step.
  destruct (idx_ B <? length (rate_times_ P))%nat eqn:Hidx; cbn [andb].
  - apply Nat.ltb_lt in Hidx. specialize (Hidle Hidx). unfold step_at in Hidle.
    replace (t0 + offs + 1 =? _) with false
      by (symmetry; apply Z.eqb_neq; congruence).
    destruct (negb _ && _); reflexivity.
  - destruct (negb _ && _); reflexivity.
Qed.

(** The event is sent on the rate the look-ahead has just installed. *)
Lemma update_step_sent (B : Buffers_) (offs : Z) :
  snd (update_step is_active P t0 B offs)
  = if spike_decided is_active t0
         (rate_ (fst (update_step is_active P t0 B offs))) offs
    then [offs] else [].
Proof.
  unfold update_step, spike_decided.
  destruct (_ && (t0 + offs + 1 =? _)); cbn [rate_];
    destruct (negb _ && _) eqn:E; cbn [fst snd rate_]; rewrite E; reflexivity.
Qed.

Lemma update_loop_S (n : nat) (B : Buffers_) (offs : Z) :
  fst (update_loop is_active P t0 (S n) B offs)
  = fst (update_loop is_active P t0 n
           (fst (update_step is_active P t0 B offs)) (offs + 1)).
Proof.
  cbn [update_loop].
  destruct (update_step is_active P t0 B offs) as [B1 s1]. cbn [fst].
  destruct (update_loop is_active P t0 n B1 (offs + 1)). reflexivity.
Qed.

Lemma update_loop_snoc (n : nat) :
  forall (B : Buffers_) (offs : Z),
    fst (update_loop is_active P t0 (S n) B offs)
    = fst (update_step is_active P t0
             (fst (update_loop is_active P t0 n B offs)) (offs + Z.of_nat n)).
Proof.
  induction n as [|n IH]; intros B offs.
  - rewrite update_loop_S. cbn [update_loop fst]. rewrite Z.add_0_r. reflexivity.
  - rewrite update_loop_S, IH, <- update_loop_S.
    replace (offs + 1 + Z.of_nat n) with (offs + Z.of_nat (S n)) by lia.
    reflexivity.
Qed.

Lemma skipn_cons_nth {A} (l : list A) (d : A) :
  forall (n : nat) (a : A) (rest : list A),
    skipn n l = a :: rest ->
    (n < length l)%nat /\ nth n l d = a /\ skipn (S n) l = rest.
Proof.
  induction l as [|x l IH]; intros n a rest H.
  - destruct n; discriminate.
  - destruct n as [|n].
    + cbn in H. injection H as -> ->. cbn. repeat split. lia.
    + cbn [skipn] in H. destruct (IH n a rest H) as (Hn & Hnth & Hrest).
      cbn [length nth]. repeat split; [lia | exact Hnth | exact Hrest].
Qed.

(** The catch-up loop stops at the first rate time after [first]. *)
Lemma skip_past_spec (first : Z) (rest : list Time) :
  forall idx : nat,
    skipn idx (rate_times_ P) = rest ->
    let idx' := skip_past first rest idx in
    (idx <= idx')%nat
    /\ ((idx' < length (rate_times_ P))%nat -> first < step_at P idx')
    /\ (forall j : nat, (idx <= j < idx')%nat -> step_at P j <= first).
Proof.
  induction rest as [|t rest IH]; intros idx Hskip; cbn [skip_past].
  - split; [lia|]. split; [|intros j Hj; lia].
    intros Hlt. apply (f_equal (@length Time)) in Hskip.
    rewrite length_skipn in Hskip. cbn in Hskip. lia.
  - destruct (skipn_cons_nth _ (Time_ms 0%Q) _ _ _ Hskip) as (Hlt & Hnth & Hrest).
    destruct (get_steps t <=? first) eqn:Hle.
    + destruct (IH (S idx) Hrest) as (H1 & H2 & H3).
      split; [lia|]. split; [exact H2|].
      intros j Hj. destruct (Nat.eq_dec j idx) as [->|Hne].
      * unfold step_at. rewrite Hnth. apply Z.leb_le. exact Hle.
      * apply H3. lia.
    + split; [lia|]. split; [|intros j Hj; lia].
      intros _. unfold step_at. rewrite Hnth. apply Z.leb_gt. exact Hle.
Qed.

Hypothesis Hinc : steps_increasing P.

Variable i : nat.
Hypothesis Hi : (i < length (rate_times_ P))%nat.

(** Before step [step_at P i - 1] is processed the cursor has not passed
    breakpoint [i]. *)
Lemma update_loop_before (n : nat) :
  forall (B : Buffers_) (offs : Z),
    (idx_ B <= i)%nat ->
    t0 + offs < step_at P (idx_ B) ->
    t0 + offs + Z.of_nat n <= step_at P i - 1 ->
    let B' := fst (update_loop is_active P t0 n B offs) in
    (idx_ B' <= i)%nat /\ t0 + offs + Z.of_nat n < step_at P (idx_ B').
Proof.
  induction n as [|n IH]; intros B offs Hidx Hcur Hend.
  - cbn [update_loop fst]. split; [exact Hidx | lia].
  - cbv zeta. rewrite update_loop_S.
    replace (t0 + offs + Z.of_nat (S n)) with (t0 + (offs + 1) + Z.of_nat n) by lia.
    apply IH; [| |lia].
    + destruct (Z.eq_dec (step_at P (idx_ B)) (t0 + offs + 1)) as [Hfire|Hidle].
      * rewrite update_step_fires by (try exact Hfire; lia). cbn [idx_].
        destruct (Nat.eq_dec (idx_ B) i) as [Heq|Hneq]; [|lia].
        rewrite Heq in Hfire. lia.
      * rewrite update_step_idle by (intros _; exact Hidle). exact Hidx.
    + destruct (Z.eq_dec (step_at P (idx_ B)) (t0 + offs + 1)) as [Hfire|Hidle].
      * rewrite update_step_fires by (try exact Hfire; lia). cbn [idx_].
        assert (Hlt : (idx_ B < i)%nat).
        { destruct (Nat.eq_dec (idx_ B) i) as [Heq|Hneq]; [|lia].
          rewrite Heq in Hfire. lia. }
        pose proof (Hinc (idx_ B) (S (idx_ B)) ltac:(lia)) as Hs.
        lia.
      * rewrite update_step_idle by (intros _; exact Hidle). lia.
Qed.

(** Processing step [step_at P i - 1] installs the rate of breakpoint [i]. *)
Lemma update_loop_at (n : nat) (B : Buffers_) (offs : Z) :
  (idx_ B <= i)%nat ->
  t0 + offs < step_at P (idx_ B) ->
  t0 + offs + Z.of_nat n = step_at P i - 1 ->
  fst (update_loop is_active P t0 (S n) B offs)
  = {| idx_ := S i; rate_ := (nth i (rate_values_ P) 0 / 1000)%Q |}.
Proof.
  intros Hidx Hcur Hend. rewrite update_loop_snoc.
  destruct (update_loop_before n B offs Hidx Hcur ltac:(lia)) as [Hle Hlt].
  set (B' := fst (update_loop is_active P t0 n B offs)) in *.
  assert (Heq : idx_ B' = i).
  { destruct (Nat.eq_dec (idx_ B') i) as [Heq|Hneq]; [exact Heq|].
    pose proof (Hinc (idx_ B') i ltac:(lia)) as Hs.
    lia. }
  rewrite update_step_fires; rewrite Heq; [reflexivity | exact Hi | lia].
Qed.

End Stepping.

Section UpdateCall.

Context `{TA : TimeAPI}.
Variable K : Kernel.
Variable is_active : Time -> bool.
Variable P : Parameters_.

(** When its three asserts hold, [update] is the catch-up followed by
    the loop over the block. *)
Lemma update_runs (origin : Time) (from to : Z) (B : Buffers_) :
  0 <= to -> from < get_min_delay K -> from < to ->
  length (rate_times_ P) = length (rate_values_ P) ->
  update K is_active P origin from to B
  = (inr (snd (update_loop is_active P (get_steps origin) (Z.to_nat (to - from))
                 (caught_up P (get_steps origin + from) B) from)),
     fst (update_loop is_active P (get_steps origin) (Z.to_nat (to - from))
            (caught_up P (get_steps origin + from) B) from)).
Proof.
  intros Hto Hdelay Hlt Hsize. unfold update; exc_unfold.
  apply Z.leb_le in Hto. apply Z.ltb_lt in Hdelay, Hlt.
  apply Nat.eqb_eq in Hsize. rewrite Hto, Hdelay, Hlt, Hsize. cbn [andb].
  unfold caught_up.
  destruct (update_loop _ _ _ _ _ _) as [B' sent]. reflexivity.
Qed.

(** After the catch-up the cursor is at a breakpoint in the future of
    the first step, and has not passed a breakpoint that lies there. *)
Lemma caught_up_spec (first : Z) (B : Buffers_) (i : nat) :
  (idx_ B <= i < length (rate_times_ P))%nat ->
  first < step_at P i ->
  (idx_ (caught_up P first B) <= i)%nat
  /\ first < step_at P (idx_ (caught_up P first B))
  /\ rate_ (caught_up P first B) = rate_ B.
Proof.
  intros Hidx Hfut. unfold caught_up. cbn [idx_ rate_].
  destruct (skip_past_spec P first _ (idx_ B) eq_refl) as (H1 & H2 & H3).
  set (idx' := skip_past first (skipn (idx_ B) (rate_times_ P)) (idx_ B)) in *.
  assert (Hle : (idx' <= i)%nat).
  { destruct (le_lt_dec idx' i) as [Hle|Hgt]; [exact Hle|].
    specialize (H3 i ltac:(lia)). lia. }
  split; [exact Hle|]. split; [|reflexivity]. apply H2. lia.
Qed.

End UpdateCall.

(** C4.  Look-ahead.  [t0] is the step of [origin], so the loop
    iteration at offset [offs] processes step [t0 + offs].
    (1) If the cursor is in range and the rate time under it is at step
    [t0 + offs + 1], processing step [t0 + offs] sets the current rate
    to the rate value under the cursor divided by 1000 and advances the
    cursor by one.
    (2) Otherwise that iteration changes neither.
    (3) For a schedule whose steps increase strictly and a breakpoint
    [i] not yet passed by the cursor, at a step [t] after the first step
    of the block: the call that ends with step [t - 1] leaves the rate
    of breakpoint [i] installed and the cursor just after [i], and
    every call that ends before step [t - 1] leaves the cursor at or
    before [i]. *)
Theorem look_ahead_update `{TA : TimeAPI} (K : Kernel)
    (is_active : Time -> bool) (P : Parameters_) (B : Buffers_)
    (origin : Time) (from : Z) (i : nat) :
  let t0 := get_steps origin in
  (forall offs : Z,
      (idx_ B < length (rate_times_ P))%nat ->
      step_at P (idx_ B) = t0 + offs + 1 ->
      fst (update_step is_active P t0 B offs)
      = {| idx_ := S (idx_ B);
           rate_ := (nth (idx_ B) (rate_values_ P) 0 / 1000)%Q |})
  /\ (forall offs : Z,
      ((idx_ B < length (rate_times_ P))%nat ->
       step_at P (idx_ B) <> t0 + offs + 1) ->
      fst (update_step is_active P t0 B offs) = B)
  /\ (steps_increasing P ->
      length (rate_times_ P) = length (rate_values_ P) ->
      (idx_ B <= i < length (rate_times_ P))%nat ->
      t0 + from < step_at P i ->
      0 <= from -> from < get_min_delay K ->
      (succeeded (update K is_active P origin from (step_at P i - t0) B) = true
       /\ snd (update K is_active P origin from (step_at P i - t0) B)
          = {| idx_ := S i; rate_ := (nth i (rate_values_ P) 0 / 1000)%Q |})
      /\ (forall to : Z,
          from < to < step_at P i - t0 ->
          succeeded (update K is_active P origin from to B) = true
          /\ (idx_ (snd (update K is_active P origin from to B)) <= i)%nat)).
Proof.
  intros t0. split; [|split].
  - intros offs. apply update_step_fires.
  - intros offs. apply update_step_idle.
  - intros Hinc Hsize Hidx Hfut Hfrom Hdelay.
    destruct (caught_up_spec P (t0 + from) B i Hidx Hfut) as (Hc1 & Hc2 & _).
    split.
    + rewrite update_runs
        by (try assumption; subst t0; lia).
      unfold succeeded, failed. cbn [fst snd negb]. split; [reflexivity|].
      replace (Z.to_nat (step_at P i - t0 - from))
        with (S (Z.to_nat (step_at P i - 1 - (t0 + from))))
        by (subst t0; lia).
      apply update_loop_at; try assumption; try (apply Hidx).
      subst t0; lia.
    + intros to Hto.
      rewrite update_runs
        by (try assumption; subst t0; lia).
      unfold succeeded, failed. cbn [fst snd negb]. split; [reflexivity|].
      apply (update_loop_before is_active P t0 Hinc i (proj2 Hidx)
               (Z.to_nat (to - from)) _ from Hc1 Hc2).
      subst t0; lia.
Qed.

Section Examples_C4.

Local Open Scope Q_scope.

Lemma example_steps_increasing : steps_increasing (schedule [1; 2] [5; 0] false).
Proof.
  intros i j [Hij Hj]. cbn [length rate_times_ schedule] in Hj.
  destruct i as [|[|i]], j as [|[|j]]; try lia. reflexivity.
Defined.

(** Breakpoints at step 10 (rate 5) and step 20 (rate 0), resolution
    0.1 ms: the call that ends with step 9 leaves the rate 5/1000, the
    call that ends with step 19 leaves the rate 0. *)
Lemma look_ahead_update_witness :
  snd (update (kernel_at 0) always_active (schedule [1; 2] [5; 0] false)
              (0 : @Time G01) 0 10 (buffers 0 0))
  = buffers 1 (5 / 1000)
  /\ snd (update (kernel_at 0) always_active (schedule [1; 2] [5; 0] false)
                 (0 : @Time G01) 0 20 (buffers 0 0))
     = buffers 2 (0 / 1000).
Proof.
  split.
  - refine (proj2 (proj1 (proj2 (proj2
              (look_ahead_update (kernel_at 0) always_active
                 (schedule [1; 2] [5; 0] false) (buffers 0 0)
                 (0 : @Time G01) 0%Z 0%nat))
              example_steps_increasing eq_refl _ _ _ _)));
      cbn; try lia; reflexivity.
  - refine (proj2 (proj1 (proj2 (proj2
              (look_ahead_update (kernel_at 0) always_active
                 (schedule [1; 2] [5; 0] false) (buffers 0 0)
                 (0 : @Time G01) 0%Z 1%nat))
              example_steps_increasing eq_refl _ _ _ _)));
      cbn; try lia; reflexivity.
Defined.

End Examples_C4.

(** C8.  Multiplicity floor.  With [n] the number drawn from the
    Poisson sampler for mean [rate_ * h_]: if [n = 0] nothing is handed
    to the receiver; if [n > 0] exactly one event is, carrying
    multiplicity [n]; so every event handed over has multiplicity at
    least 1.  The random stream advances by exactly that one draw. *)
Theorem event_hook_multiplicity {RNG : Type}
    (poisson_dist_ : RNG -> Q -> Z * RNG)
    (B : Buffers_) (V : Variables_) (e : DSSpikeEvent) (rng : RNG) :
  let n := fst (poisson_dist_ rng (rate_ B * h_ V)%Q) in
  let out := fst (event_hook poisson_dist_ B V e rng) in
  (n = 0 -> out = [])
  /\ (0 < n -> out = [set_multiplicity n e])
  /\ Forall (fun e' => 1 <= multiplicity e' /\ receiver e' = receiver e) out
  /\ snd (event_hook poisson_dist_ B V e rng)
     = snd (poisson_dist_ rng (rate_ B * h_ V)%Q).
Proof.
  unfold event_hook.
  destruct (poisson_dist_ rng (rate_ B * h_ V)%Q) as [n rng']. cbn [fst snd].
  destruct (0 <? n) eqn:Hn; cbn [fst snd].
  - apply Z.ltb_lt in Hn. repeat split; try (intros; lia).
    constructor; [|constructor]. cbn. split; [lia | reflexivity].
  - apply Z.ltb_ge in Hn. repeat split; try (intros; lia). constructor.
Qed.

Section Examples_C8.

Local Open Scope Q_scope.

Lemma event_hook_examples :
  event_hook (constant_draw 0) (buffers 1 0.005) (mkVariables 0.1)
             (mkDSSpikeEvent 7 1) 0%nat = ([], 1%nat)
  /\ event_hook (constant_draw 3) (buffers 1 0.005) (mkVariables 0.1)
                (mkDSSpikeEvent 7 1) 0%nat = ([mkDSSpikeEvent 7 3], 1%nat).
Proof. split; reflexivity. Qed.

End Examples_C8.

Section Replacement.

Context `{TA : TimeAPI}.
Variable K : Kernel.

Lemma set_size_mismatch (d : Dictionary) (P : Parameters_) (B : Buffers_)
    (t : Q) (ts vs : list Q) :
  d_rate_times d = Some (t :: ts) ->
  d_rate_values d = Some vs ->
  length (t :: ts) <> length vs ->
  set K d (P, B)
  = (inl SizeMismatch, (mkParameters (rate_times_ P) vs (policy_after d P), B)).
Proof.
  intros Ht Hv Hlen. destruct d as [dt dv df]. cbn in Ht, Hv. subst dt dv.
  unfold set, updateValue_rate_values, policy_after; exc_unfold.
  apply Nat.eqb_neq in Hlen.
  destruct df as [f|];
    cbn -[Nat.eqb length assert_valid_rate_time_and_insert set_loop];
    rewrite ?andb_false_r;
    cbn -[Nat.eqb length assert_valid_rate_time_and_insert set_loop];
    rewrite Hlen; reflexivity.
Qed.

(** A successful [set] with a non-empty list of times stores the
    schedule it built and resets the index. *)
Lemma set_nontrivial_success (d : Dictionary) (P : Parameters_) (B : Buffers_)
    (t : Q) (ts : list Q) :
  d_rate_times d = Some (t :: ts) ->
  fst (set K d (P, B)) = inr tt ->
  exists (vs : list Q) (al : list Time),
    d_rate_values d = Some vs
    /\ length al = length vs
    /\ strictly_increasing al = true
    /\ set K d (P, B)
       = (inr tt, (mkParameters al vs (policy_after d P), reset_idx B)).
Proof.
  intros Ht Hok. destruct (d_rate_values d) as [vs|] eqn:Hv.
  - destruct (Nat.eq_dec (length (t :: ts)) (length vs)) as [Hlen|Hlen].
    + pose proof (set_nontrivial K d P B t ts vs Ht Hv Hlen) as Hset.
      destruct (build_schedule K (policy_after d P) (t :: ts)) as [e|al] eqn:Hb.
      * destruct Hset as [He _]. congruence.
      * destruct (build_schedule_sound K _ _ _ Hb) as [HF Hs].
        exists vs, al. split; [reflexivity|].
        split; [rewrite <- Hlen; symmetry; exact (Forall2_length_eq _ _ _ HF)|].
        split; [exact Hs | exact Hset].
    + rewrite (set_size_mismatch d P B t ts vs Ht Hv Hlen) in Hok. discriminate.
  - assert (Hf := set_asymmetric K d P B). rewrite Ht, Hv in Hf.
    specialize (Hf ltac:(cbn; discriminate)).
    unfold failed in Hf. rewrite Hok in Hf. discriminate.
Qed.

Variable is_active : Time -> bool.
Variable P : Parameters_.
Variable t0 : Z.

Lemma update_step_quiet (B : Buffers_) (offs : Z) :
  ((idx_ B < length (rate_times_ P))%nat ->
   get_steps (nth (idx_ B) (rate_times_ P) (Time_ms 0%Q)) <> t0 + offs + 1) ->
  update_step is_active P t0 B offs
  = (B, if spike_decided is_active t0 (rate_ B) offs then [offs] else []).
Proof.
  intros Hidle.
  rewrite (surjective_pairing (update_step is_active P t0 B offs)).
  rewrite update_step_sent, update_step_idle by exact Hidle. reflexivity.
Qed.

(** While every breakpoint from the cursor on lies beyond the steps
    processed, the loop changes nothing and decides with the rate it
    was given. *)
Lemma update_loop_quiet (n : nat) :
  forall (B : Buffers_) (offs : Z),
    (forall j : nat, (idx_ B <= j < length (rate_times_ P))%nat ->
        t0 + offs + Z.of_nat n
        < get_steps (nth j (rate_times_ P) (Time_ms 0%Q))) ->
    update_loop is_active P t0 n B offs
    = (B, filter (spike_decided is_active t0 (rate_ B)) (offsets offs n)).
Proof.
  induction n as [|n IH]; intros B offs Hfar; [reflexivity|].
  cbn [update_loop offsets filter].
  rewrite update_step_quiet.
  - rewrite IH by (intros j Hj; specialize (Hfar j Hj); lia).
    destruct (spike_decided is_active t0 (rate_ B) offs); reflexivity.
  - intros Hidx. specialize (Hfar (idx_ B) ltac:(lia)). lia.
Qed.

Lemma caught_up_quiet (first : Z) (B : Buffers_) :
  (forall j : nat, (idx_ B <= j < length (rate_times_ P))%nat ->
      first < get_steps (nth j (rate_times_ P) (Time_ms 0%Q))) ->
  caught_up P first B = B.
Proof.
  intros Hfar. unfold caught_up.
  destruct (skipn (idx_ B) (rate_times_ P)) as [|t rest] eqn:Hskip;
    cbn [skip_past].
  - destruct B; reflexivity.
  - destruct (skipn_cons_nth _ (Time_ms 0%Q) _ _ _ Hskip) as (Hlt & Hnth & _).
    specialize (Hfar (idx_ B) ltac:(lia)). rewrite Hnth in Hfar.
    replace (get_steps t <=? first) with false
      by (symmetry; apply Z.leb_gt; exact Hfar).
    destruct B; reflexivity.
Qed.

End Replacement.

Lemma set_status_buffers `{TA : TimeAPI} (K : Kernel) (d : Dictionary)
    (P : Parameters_) (B : Buffers_) :
  snd (snd (set_status K d (P, B))) = snd (snd (set K d (P, B))).
Proof.
  unfold set_status. cbn [fst snd].
  destruct (set K d (P, B)) as [[e|[]] [P' B']]; reflexivity.
Qed.

(** C9.  A schedule replacement leaves the current rate alone.
    (1) Neither [Parameters_::set] nor
    [set_data_from_stimulation_backend] ever changes [rate_]; it is
    [init_buffers_] that sets it to 0.
    (2) After a successful [set] with a non-empty list of times the
    index is 0 and [rate_] is what it was; and an [update] over a block
    that ends before the look-ahead reaches any breakpoint of the new
    schedule leaves the buffers as they are and sends an event at
    exactly the offsets where the old rate is positive and the device
    is active. *)
Theorem replacement_keeps_current_rate `{TA : TimeAPI} (K : Kernel)
    (is_active : Time -> bool) (d : Dictionary) (P : Parameters_)
    (B : Buffers_) (t : Q) (ts : list Q) (origin : Time) (from to : Z) :
  (rate_ (snd (snd (set K d (P, B)))) = rate_ B
   /\ (forall rate_time_update : list Q,
         rate_ (snd (snd (set_data_from_stimulation_backend K rate_time_update
                            (P, B)))) = rate_ B)
   /\ init_buffers_ B = {| idx_ := 0; rate_ := 0%Q |})
  /\ (d_rate_times d = Some (t :: ts) ->
      fst (set K d (P, B)) = inr tt ->
      let P' := fst (snd (set K d (P, B))) in
      let B' := snd (snd (set K d (P, B))) in
      B' = {| idx_ := 0; rate_ := rate_ B |}
      /\ (0 <= from < to ->
          from < get_min_delay K ->
          Forall (fun tr => get_steps origin + to < get_steps tr)
                 (rate_times_ P') ->
          update K is_active P' origin from to B'
          = (inr (filter (spike_decided is_active (get_steps origin) (rate_ B))
                         (offsets from (Z.to_nat (to - from)))),
             B'))).
Proof.
  split.
  - split; [|split].
    + apply set_keeps_rate.
    + intros upd. apply backend_keeps_rate.
    + reflexivity.
  - intros Ht Hok P' B'. subst P' B'.
    destruct (set_nontrivial_success K d P B t ts Ht Hok)
      as (vs & al & _ & Hlen & _ & Hset).
    rewrite Hset. cbn [fst snd]. split; [reflexivity|].
    intros Hblock Hdelay Hfar. cbn [rate_times_] in Hfar.
    assert (Hnth : forall j : nat, (j < length al)%nat ->
              get_steps origin + to < get_steps (nth j al (Time_ms 0%Q))).
    { intros j Hj. rewrite Forall_forall in Hfar. apply Hfar, nth_In, Hj. }
    rewrite update_runs by (cbn [rate_times_ rate_values_]; try assumption; lia).
    rewrite caught_up_quiet
      by (cbn [rate_times_]; intros j Hj; specialize (Hnth j ltac:(lia)); lia).
    rewrite update_loop_quiet
      by (cbn [rate_times_]; intros j Hj; specialize (Hnth j ltac:(lia)); lia).
    reflexivity.
Qed.

(** [set_status] changes the buffers exactly as its call of [set] does. *)
Lemma set_status_keeps_rate `{TA : TimeAPI} (K : Kernel) (d : Dictionary)
    (P : Parameters_) (B : Buffers_) :
  rate_ (snd (snd (set_status K d (P, B)))) = rate_ B.
Proof.
  rewrite set_status_buffers. apply set_keeps_rate.
Qed.

Section Examples_C9.

Local Open Scope Q_scope.

(** A generator running at rate 5/1000 gets a new schedule whose first
    breakpoint is at step 1000: the next block of ten steps still sends
    an event at every offset, on the old rate. *)
Lemma replacement_keeps_current_rate_witness :
  snd (snd (set (kernel_at 0) (dict (Some [100; 200]) (Some [0; 7]) None)
              (schedule [1] [5] false, buffers 1 (5 / 1000))))
  = buffers 0 (5 / 1000)
  /\ update (kernel_at 0) always_active
       (fst (snd (set (kernel_at 0)
                    (dict (Some [100; 200]) (Some [0; 7]) None)
                    (schedule [1] [5] false, buffers 1 (5 / 1000)))))
       (0 : @Time G01) 0 10
       (snd (snd (set (kernel_at 0)
                    (dict (Some [100; 200]) (Some [0; 7]) None)
                    (schedule [1] [5] false, buffers 1 (5 / 1000)))))
     = (inr [0; 1; 2; 3; 4; 5; 6; 7; 8; 9]%Z,
        snd (snd (set (kernel_at 0)
                    (dict (Some [100; 200]) (Some [0; 7]) None)
                    (schedule [1] [5] false, buffers 1 (5 / 1000))))).
Proof.
  pose proof (proj2 (replacement_keeps_current_rate (kernel_at 0) always_active
                       (dict (Some [100; 200]) (Some [0; 7]) None)
                       (schedule [1] [5] false) (buffers 1 (5 / 1000))
                       100 [200] (0 : @Time G01) 0%Z 10%Z)
                    eq_refl eq_refl) as [H1 H2].
  split; [exact H1|].
  apply H2.
  - lia.
  - reflexivity.
  - repeat constructor.
Defined.

End Examples_C9.

(** * Further properties of the code *)

(** ** Outcomes of [Parameters_::set], case by case *)

Section SetCases.

Context `{TA : TimeAPI}.
Variable K : Kernel.

Lemma aligned_time_errors (allow : bool) (t : Q) (e : error) :
  aligned_time K allow t = inl e -> building_error e = true.
Proof.
  unfold aligned_time.
  destruct (Qle_bool t _); [intros [= <-]; reflexivity|].
  destruct (is_grid_time (Time_ms t)); [discriminate|].
  destruct allow; [|intros [= <-]; reflexivity].
  destruct (is_grid_time (Time_ms_stamp t)); [discriminate|].
  intros [= <-]. reflexivity.
Qed.

Lemma build_after_errors (allow : bool) (ts : list Q) :
  forall (prev : Time) (e : error),
    build_after K allow prev ts = inl e -> building_error e = true.
Proof.
  induction ts as [|t ts IH]; intros prev e; cbn [build_after]; [discriminate|].
  destruct (aligned_time K allow t) as [e'|a] eqn:Ha.
  - intros [= <-]. exact (aligned_time_errors _ _ _ Ha).
  - destruct (Time_ge prev a); [intros [= <-]; reflexivity|].
    destruct (build_after K allow a ts) as [e'|l] eqn:Hb; [|discriminate].
    intros [= <-]. exact (IH a e' Hb).
Qed.

Lemma build_schedule_errors (allow : bool) (ts : list Q) (e : error) :
  build_schedule K allow ts = inl e -> building_error e = true.
Proof.
  destruct ts as [|t ts]; cbn [build_schedule]; [discriminate|].
  destruct (aligned_time K allow t) as [e'|a] eqn:Ha.
  - intros [= <-]. exact (aligned_time_errors _ _ _ Ha).
  - destruct (build_after K allow a ts) as [e'|l] eqn:Hb; [|discriminate].
    intros [= <-]. exact (build_after_errors _ _ _ _ Hb).
Qed.

Lemma set_flag_locked (d : Dictionary) (P : Parameters_) (B : Buffers_) :
  flag_locked d P = true ->
  fst (set K d (P, B)) = inl OffGridFlagLocked.
Proof.
  unfold flag_locked, set, updateValue_rate_values; exc_unfold.
  destruct d as [dt dv df]. cbn [d_rate_times d_rate_values d_allow_offgrid_times].
  destruct df as [f|]; [|discriminate]. intros Hlock.
  destruct dv as [vs|]; cbn [fst snd rate_times_ allow_offgrid_times_];
    rewrite Hlock; reflexivity.
Qed.

Lemma set_asymmetric_error (d : Dictionary) (P : Parameters_) (B : Buffers_) :
  flag_locked d P = false ->
  known (d_rate_times d) <> known (d_rate_values d) ->
  fst (set K d (P, B)) = inl AsymmetricUpdate.
Proof.
  unfold flag_locked, set, updateValue_rate_values; exc_unfold.
  destruct d as [dt dv df]. cbn [d_rate_times d_rate_values d_allow_offgrid_times].
  intros Hlock Hneq.
  destruct df as [f|], dt as [dt|], dv as [vs|];
    cbn [known] in *; try congruence;
    cbn [fst snd rate_times_ allow_offgrid_times_]; rewrite ?Hlock; reflexivity.
Qed.

Lemma set_no_rate_keys (d : Dictionary) (P : Parameters_) (B : Buffers_) :
  d_rate_times d = None ->
  d_rate_values d = None ->
  flag_locked d P = false ->
  set K d (P, B)
  = (inr tt, ({| rate_times_ := rate_times_ P;
                 rate_values_ := rate_values_ P;
                 allow_offgrid_times_ := policy_after d P |}, B)).
Proof.
  unfold flag_locked, policy_after, set, updateValue_rate_values; exc_unfold.
  destruct d as [dt dv df]. cbn [d_rate_times d_rate_values d_allow_offgrid_times].
  intros -> -> Hlock.
  destruct df as [f|]; cbn [known fst snd rate_times_ allow_offgrid_times_] in *.
  - rewrite Hlock. reflexivity.
  - destruct P; reflexivity.
Qed.

Lemma flag_not_locked_with_times (d : Dictionary) (P : Parameters_) (l : list Q) :
  d_rate_times d = Some l -> flag_locked d P = false.
Proof.
  unfold flag_locked. intros ->. destruct (d_allow_offgrid_times d); [|reflexivity].
  cbn [known orb negb]. apply andb_false_r.
Qed.

(** Every call of [set] is in exactly one of six cases. *)
Lemma set_cases (d : Dictionary) (P : Parameters_) (B : Buffers_) :
  (flag_locked d P = true /\ fst (set K d (P, B)) = inl OffGridFlagLocked)
  \/ (flag_locked d P = false
      /\ known (d_rate_times d) <> known (d_rate_values d)
      /\ fst (set K d (P, B)) = inl AsymmetricUpdate)
  \/ (flag_locked d P = false
      /\ d_rate_times d = None /\ d_rate_values d = None
      /\ fst (set K d (P, B)) = inr tt)
  \/ (exists vs, d_rate_times d = Some [] /\ d_rate_values d = Some vs
                 /\ fst (set K d (P, B)) = inr tt)
  \/ (exists t ts vs,
         d_rate_times d = Some (t :: ts) /\ d_rate_values d = Some vs
         /\ length (t :: ts) <> length vs
         /\ fst (set K d (P, B)) = inl SizeMismatch)
  \/ (exists t ts vs,
         d_rate_times d = Some (t :: ts) /\ d_rate_values d = Some vs
         /\ length (t :: ts) = length vs
         /\ match build_schedule K (policy_after d P) (t :: ts) with
            | inl e => fst (set K d (P, B)) = inl e
            | inr _ => fst (set K d (P, B)) = inr tt
            end).
Proof.
  destruct (flag_locked d P) eqn:Hlock.
  { left. split; [reflexivity|]. apply set_flag_locked. exact Hlock. }
  right.
  destruct (d_rate_times d) as [[|t ts]|] eqn:Ht;
    destruct (d_rate_values d) as [vs|] eqn:Hv.
  - right. right. left. exists vs. repeat split.
    destruct d as [dt dv df]. cbn in Ht, Hv. subst dt dv.
    rewrite set_empty_times. reflexivity.
  - left. repeat split; [cbn; discriminate|].
    apply set_asymmetric_error; [exact Hlock|]. rewrite Ht, Hv. cbn. discriminate.
  - right. right. right.
    destruct (Nat.eq_dec (length (t :: ts)) (length vs)) as [Hlen|Hlen].
    + right. exists t, ts, vs. repeat split; try assumption.
      pose proof (set_nontrivial K d P B t ts vs Ht Hv Hlen) as Hset.
      destruct (build_schedule K (policy_after d P) (t :: ts)).
      * exact (proj1 Hset).
      * rewrite Hset. reflexivity.
    + left. exists t, ts, vs. repeat split; try assumption.
      rewrite (set_size_mismatch K d P B t ts vs Ht Hv Hlen). reflexivity.
  - left. repeat split; [cbn; discriminate|].
    apply set_asymmetric_error; [exact Hlock|]. rewrite Ht, Hv. cbn. discriminate.
  - left. repeat split; [cbn; discriminate|].
    apply set_asymmetric_error; [exact Hlock|]. rewrite Ht, Hv. cbn. discriminate.
  - right. left. repeat split.
    rewrite (set_no_rate_keys d P B Ht Hv Hlock). reflexivity.
Qed.

End SetCases.

Section SetErrors.

Context `{TA : TimeAPI}.
Variable K : Kernel.

Lemma flag_locked_iff (d : Dictionary) (P : Parameters_) :
  flag_locked d P = true
  <-> exists f : bool,
        d_allow_offgrid_times d = Some f
        /\ f <> allow_offgrid_times_ P
        /\ d_rate_times d = None
        /\ rate_times_ P <> [].
Proof.
  unfold flag_locked. split.
  - destruct (d_allow_offgrid_times d) as [f|]; [|discriminate].
    intros H. apply andb_true_iff in H. destruct H as [Hx Hn].
    apply negb_true_iff, orb_false_iff in Hn. destruct Hn as [Hk He].
    exists f. split; [reflexivity|]. split; [|split].
    + intros ->. rewrite xorb_nilpotent in Hx. discriminate.
    + destruct (d_rate_times d); [discriminate | reflexivity].
    + intros Hnil. rewrite Hnil in He. discriminate.
  - intros (f & -> & Hneq & -> & Hne).
    apply andb_true_iff. split.
    + destruct f, (allow_offgrid_times_ P); try reflexivity; congruence.
    + destruct (rate_times_ P); [congruence | reflexivity].
Qed.

(** The error of a failing [set], by case. *)
Lemma set_error_inversion (d : Dictionary) (P : Parameters_) (B : Buffers_)
    (e : error) :
  fst (set K d (P, B)) = inl e ->
  (e = OffGridFlagLocked /\ flag_locked d P = true)
  \/ (e = AsymmetricUpdate /\ flag_locked d P = false
      /\ known (d_rate_times d) <> known (d_rate_values d))
  \/ (e = SizeMismatch
      /\ exists t ts vs, d_rate_times d = Some (t :: ts)
                         /\ d_rate_values d = Some vs
                         /\ length (t :: ts) <> length vs)
  \/ (building_error e = true
      /\ exists t ts vs, d_rate_times d = Some (t :: ts)
                         /\ d_rate_values d = Some vs
                         /\ length (t :: ts) = length vs
                         /\ build_schedule K (policy_after d P) (t :: ts) = inl e).
Proof.
  intros He.
  destruct (set_cases K d P B)
    as [[Hl H] | [(Hl & Hk & H) | [(Hl & _ & _ & H) | [(vs & _ & _ & H)
        | [(t & ts & vs & Ht & Hv & Hlen & H) | (t & ts & vs & Ht & Hv & Hlen & H)]]]]].
  - left. split; [congruence | exact Hl].
  - right. left. split; [congruence|]. split; assumption.
  - congruence.
  - congruence.
  - right. right. left. split; [congruence|]. exists t, ts, vs. repeat split; assumption.
  - right. right. right.
    destruct (build_schedule K (policy_after d P) (t :: ts)) as [e'|al] eqn:Hb;
      [|congruence].
    assert (e' = e) by congruence. subst e'.
    split; [exact (build_schedule_errors K _ _ _ Hb)|].
    exists t, ts, vs. repeat split; assumption.
Qed.

End SetErrors.

(** X1.  The off-grid flag lock.  [set] fails with [OffGridFlagLocked]
    exactly when the dictionary carries a flag different from the
    stored one, carries no rate times, and the stored schedule is not
    empty. *)
Theorem set_OffGridFlagLocked_iff `{TA : TimeAPI} (K : Kernel)
    (d : Dictionary) (P : Parameters_) (B : Buffers_) :
  raises (set K d (P, B)) OffGridFlagLocked
  <-> exists f : bool,
        d_allow_offgrid_times d = Some f
        /\ f <> allow_offgrid_times_ P
        /\ d_rate_times d = None
        /\ rate_times_ P <> [].
Proof.
  rewrite <- flag_locked_iff. unfold raises. split.
  - intros He.
    destruct (set_error_inversion K d P B _ He)
      as [[_ H] | [[H _] | [[H _] | [H _]]]];
      [exact H | discriminate | discriminate | discriminate].
  - apply set_flag_locked.
Qed.

(** X2.  Symmetric presence.  [set] fails with [AsymmetricUpdate]
    exactly when one of the keys [rate_times], [rate_values] is present
    without the other and the flag lock of X1 does not fire first. *)
Theorem set_AsymmetricUpdate_iff `{TA : TimeAPI} (K : Kernel)
    (d : Dictionary) (P : Parameters_) (B : Buffers_) :
  raises (set K d (P, B)) AsymmetricUpdate
  <-> flag_locked d P = false
      /\ known (d_rate_times d) <> known (d_rate_values d).
Proof.
  unfold raises. split.
  - intros He.
    destruct (set_error_inversion K d P B _ He)
      as [[H _] | [[_ H] | [[H _] | [H _]]]];
      [discriminate | exact H | discriminate | discriminate].
  - intros [Hl Hk]. apply set_asymmetric_error; assumption.
Qed.

(** X3.  Size check.  [set] fails with [SizeMismatch] exactly when the
    dictionary carries a non-empty list of rate times and a list of rate
    values of another length; the lengths compared are those of the
    input, whatever the stored schedule is. *)
Theorem set_SizeMismatch_iff `{TA : TimeAPI} (K : Kernel)
    (d : Dictionary) (P : Parameters_) (B : Buffers_) :
  raises (set K d (P, B)) SizeMismatch
  <-> exists (t : Q) (ts vs : list Q),
        d_rate_times d = Some (t :: ts)
        /\ d_rate_values d = Some vs
        /\ length (t :: ts) <> length vs.
Proof.
  unfold raises. split.
  - intros He.
    destruct (set_error_inversion K d P B _ He)
      as [[H _] | [[H _] | [[_ H] | [H _]]]];
      [discriminate | discriminate | exact H | discriminate].
  - intros (t & ts & vs & Ht & Hv & Hlen).
    rewrite (set_size_mismatch K d P B t ts vs Ht Hv Hlen). reflexivity.
Qed.

(** X4.  A call without rate keys.  When the dictionary has neither
    [rate_times] nor [rate_values] and the flag lock does not fire,
    [set] returns normally, leaves the schedule and the buffers as they
    are, and stores the flag of the dictionary if it has one. *)
Theorem set_without_rate_keys `{TA : TimeAPI} (K : Kernel)
    (d : Dictionary) (P : Parameters_) (B : Buffers_) :
  d_rate_times d = None ->
  d_rate_values d = None ->
  flag_locked d P = false ->
  set K d (P, B)
  = (inr tt, ({| rate_times_ := rate_times_ P;
                 rate_values_ := rate_values_ P;
                 allow_offgrid_times_ :=
                   match d_allow_offgrid_times d with
                   | Some f => f
                   | None => allow_offgrid_times_ P
                   end |}, B)).
Proof.
  intros Ht Hv Hlock. rewrite (set_no_rate_keys K d P B Ht Hv Hlock).
  reflexivity.
Qed.

Section Examples_X4.

Local Open Scope Q_scope.

(** On an empty schedule the flag may be switched on by itself. *)
Lemma set_without_rate_keys_witness :
  set (kernel_at 0) (dict None None (Some true))
      (Parameters_default, buffers 0 0)
  = (inr tt, (schedule [] [] true, buffers 0 0)).
Proof.
  apply (set_without_rate_keys (kernel_at 0) (dict None None (Some true))
           Parameters_default (buffers 0 0)); reflexivity.
Defined.

End Examples_X4.

(** ** Insertion of one rate time *)

(** X5.  [assert_valid_rate_time_and_insert] is all-or-nothing on its
    receiver: when it throws the parameters are untouched; when it
    returns it has appended exactly one time, which is a grid time --
    the converted input, or its [ms_stamp] when the converted input is
    off the grid and off-grid times are allowed -- and has left the
    rate values and the flag alone. *)
Theorem insertion_appends_one_grid_time `{TA : TimeAPI} (K : Kernel)
    (t : Q) (P : Parameters_) :
  (forall e : error,
      fst (assert_valid_rate_time_and_insert K t P) = inl e ->
      snd (assert_valid_rate_time_and_insert K t P) = P)
  /\ (fst (assert_valid_rate_time_and_insert K t P) = inr tt ->
      exists a : Time,
        snd (assert_valid_rate_time_and_insert K t P)
        = {| rate_times_ := rate_times_ P ++ [a];
             rate_values_ := rate_values_ P;
             allow_offgrid_times_ := allow_offgrid_times_ P |}
        /\ is_grid_time a = true
        /\ (a = Time_ms t
            \/ (a = Time_ms_stamp t
                /\ is_grid_time (Time_ms t) = false
                /\ allow_offgrid_times_ P = true))).
Proof.
  rewrite insert_aligned_time.
  destruct (aligned_time K (allow_offgrid_times_ P) t) as [e|a] eqn:Ha;
    cbn [fst snd].
  - split; [reflexivity | discriminate].
  - split; [discriminate|]. intros _. exists a.
    split; [reflexivity|]. split; [exact (aligned_time_is_grid K _ _ _ Ha)|].
    revert Ha. unfold aligned_time.
    destruct (Qle_bool t _); [discriminate|].
    destruct (is_grid_time (Time_ms t)); [intros [= <-]; left; reflexivity|].
    destruct (allow_offgrid_times_ P); [|discriminate].
    destruct (is_grid_time (Time_ms_stamp t)); [|discriminate].
    intros [= <-]. right. repeat split.
Qed.

(** X6.  The insertion fails with [NotGridAligned] exactly when the
    time is strictly after the simulation time, its conversion is not a
    grid time, and off-grid times are not allowed. *)
Theorem insertion_NotGridAligned_iff `{TA : TimeAPI} (K : Kernel)
    (t : Q) (P : Parameters_) :
  raises (assert_valid_rate_time_and_insert K t P) NotGridAligned
  <-> (get_ms (get_time K) < t)%Q
      /\ is_grid_time (Time_ms t) = false
      /\ allow_offgrid_times_ P = false.
Proof.
  unfold raises. rewrite insert_aligned_time. unfold aligned_time.
  destruct (Qle_bool t (get_ms (get_time K))) eqn:Hle; cbn [fst].
  - apply Qle_bool_iff in Hle. split; [discriminate|].
    intros [Hlt _]. exfalso. exact (Qlt_not_le _ _ Hlt Hle).
  - assert (Hlt : (get_ms (get_time K) < t)%Q).
    { apply Qnot_le_lt. intros Hc. apply Qle_bool_iff in Hc. congruence. }
    destruct (is_grid_time (Time_ms t)); cbn [fst].
    + split; [discriminate | intros (_ & H & _); discriminate].
    + destruct (allow_offgrid_times_ P).
      * destruct (is_grid_time (Time_ms_stamp t)); cbn [fst];
          (split; [discriminate | intros (_ & _ & H); discriminate]).
      * cbn [fst]. split; [intros _; repeat split; exact Hlt | reflexivity].
Qed.

(** ** A successful replacement *)

Section SetSuccess.

Context `{TA : TimeAPI}.
Variable K : Kernel.

Lemma set_nontrivial_built (d : Dictionary) (P : Parameters_) (B : Buffers_)
    (t : Q) (ts : list Q) :
  d_rate_times d = Some (t :: ts) ->
  fst (set K d (P, B)) = inr tt ->
  exists (vs : list Q) (al : list Time),
    d_rate_values d = Some vs
    /\ length (t :: ts) = length vs
    /\ build_schedule K (policy_after d P) (t :: ts) = inr al
    /\ set K d (P, B)
       = (inr tt, (mkParameters al vs (policy_after d P), reset_idx B)).
Proof.
  intros Ht Hok.
  destruct (set_cases K d P B)
    as [[_ H] | [(_ & _ & H) | [(_ & Hn & _ & _) | [(vs & Hn & _ & _)
        | [(t' & ts' & vs & _ & _ & _ & H) | (t' & ts' & vs & Ht' & Hv & Hlen & H)]]]]];
    try congruence.
  rewrite Ht in Ht'. injection Ht' as <- <-.
  pose proof (set_nontrivial K d P B t ts vs Ht Hv Hlen) as Hset.
  destruct (build_schedule K (policy_after d P) (t :: ts)) as [e|al];
    [congruence|].
  exists vs, al. repeat split; assumption.
Qed.

Lemma aligned_on_grid_input (allow : bool) (ts : list Q) (al : list Time) :
  Forall2 (fun x a => aligned_time K allow x = inr a) ts al ->
  Forall (fun x => is_grid_time (Time_ms x) = true) ts ->
  al = map Time_ms ts.
Proof.
  induction 1 as [|x a ts al Ha _ IH]; intros Hg; [reflexivity|].
  inversion Hg as [|? ? Hx Hrest]; subst. cbn [map]. f_equal.
  - revert Ha. unfold aligned_time. destruct (Qle_bool x _); [discriminate|].
    rewrite Hx. intros [= <-]. reflexivity.
  - apply IH. exact Hrest.
Qed.

Lemma aligned_all_grid (allow : bool) (ts : list Q) (al : list Time) :
  Forall2 (fun x a => aligned_time K allow x = inr a) ts al ->
  Forall (fun a => is_grid_time a = true) al.
Proof.
  induction 1 as [|x a ts al Ha _ IH]; constructor.
  - exact (aligned_time_is_grid K _ _ _ Ha).
  - exact IH.
Qed.

End SetSuccess.

(** X7.  What a successful [set] with a non-empty list of times leaves
    behind, whatever the receiver held before: as many times as values
    and as input times, the times strictly increasing and all of them
    grid times, the values of the dictionary, and the index reset to 0
    with the current rate untouched. *)
Theorem set_success_establishes_schedule `{TA : TimeAPI} (K : Kernel)
    (d : Dictionary) (P : Parameters_) (B : Buffers_) (t : Q) (ts : list Q) :
  d_rate_times d = Some (t :: ts) ->
  fst (set K d (P, B)) = inr tt ->
  let P' := fst (snd (set K d (P, B))) in
  let B' := snd (snd (set K d (P, B))) in
  schedule_invariant P' = true
  /\ Forall (fun a => is_grid_time a = true) (rate_times_ P')
  /\ length (rate_times_ P') = length (t :: ts)
  /\ d_rate_values d = Some (rate_values_ P')
  /\ B' = {| idx_ := 0; rate_ := rate_ B |}.
Proof.
  intros Ht Hok P' B'. subst P' B'.
  destruct (set_nontrivial_built K d P B t ts Ht Hok)
    as (vs & al & Hv & Hlen & Hb & Hset).
  rewrite Hset. cbn [fst snd rate_times_ rate_values_].
  destruct (build_schedule_sound K _ _ _ Hb) as [HF Hs].
  pose proof (Forall2_length_eq _ _ _ HF) as HlenF.
  split; [|split; [|split; [|split]]].
  - unfold schedule_invariant. cbn [rate_times_ rate_values_].
    rewrite Hs, <- HlenF, Hlen, Nat.eqb_refl. reflexivity.
  - exact (aligned_all_grid K _ _ _ HF).
  - symmetry. exact HlenF.
  - exact Hv.
  - reflexivity.
Qed.

(** X8.  [set] then [get].  After a successful [set] whose input times
    all convert to grid times, [get] reports each input time converted
    to a [Time] and back to ms, in input order, the rate values that
    were given, and the flag in force. *)
Theorem set_get_round_trip `{TA : TimeAPI} (K : Kernel)
    (d : Dictionary) (P : Parameters_) (B : Buffers_) (t : Q) (ts : list Q) :
  d_rate_times d = Some (t :: ts) ->
  fst (set K d (P, B)) = inr tt ->
  Forall (fun x => is_grid_time (Time_ms x) = true) (t :: ts) ->
  get (fst (snd (set K d (P, B))))
  = {| d_rate_times := Some (map (fun x => get_ms (Time_ms x)) (t :: ts));
       d_rate_values := d_rate_values d;
       d_allow_offgrid_times :=
         Some (match d_allow_offgrid_times d with
               | Some f => f
               | None => allow_offgrid_times_ P
               end) |}.
Proof.
  intros Ht Hok Hgrid.
  destruct (set_nontrivial_built K d P B t ts Ht Hok)
    as (vs & al & Hv & Hlen & Hb & Hset).
  rewrite Hset. cbn [fst snd].
  destruct (build_schedule_sound K _ _ _ Hb) as [HF _].
  rewrite (aligned_on_grid_input K _ _ _ HF Hgrid).
  destruct (get_rate_times (mkParameters (map Time_ms (t :: ts)) vs
                              (policy_after d P))) as (H1 & H2 & H3).
  destruct (get _) as [gt gv gf]. cbn [d_rate_times d_rate_values
    d_allow_offgrid_times rate_times_ rate_values_ allow_offgrid_times_] in *.
  subst gt gv gf. rewrite Hv, map_map. reflexivity.
Qed.

Section Examples_X7.

Local Open Scope Q_scope.

Lemma set_success_establishes_schedule_witness :
  schedule_invariant
    (fst (snd (set (kernel_at 0) (dict (Some [100.5; 200]) (Some [50; 100]) None)
                   (schedule [1] [5] false, buffers 1 (5 / 1000))))) = true
  /\ Forall (fun a => @is_grid_time G01 a = true)
       (rate_times_
          (fst (snd (set (kernel_at 0)
                         (dict (Some [100.5; 200]) (Some [50; 100]) None)
                         (schedule [1] [5] false, buffers 1 (5 / 1000))))))
  /\ length
       (rate_times_
          (fst (snd (set (kernel_at 0)
                         (dict (Some [100.5; 200]) (Some [50; 100]) None)
                         (schedule [1] [5] false, buffers 1 (5 / 1000))))))
     = length [100.5; 200]
  /\ d_rate_values (dict (Some [100.5; 200]) (Some [50; 100]) None)
     = Some (rate_values_
               (fst (snd (set (kernel_at 0)
                              (dict (Some [100.5; 200]) (Some [50; 100]) None)
                              (schedule [1] [5] false, buffers 1 (5 / 1000))))))
  /\ snd (snd (set (kernel_at 0) (dict (Some [100.5; 200]) (Some [50; 100]) None)
                   (schedule [1] [5] false, buffers 1 (5 / 1000))))
     = buffers 0 (5 / 1000).
Proof.
  apply (set_success_establishes_schedule (kernel_at 0)
           (dict (Some [100.5; 200]) (Some [50; 100]) None)
           (schedule [1] [5] false) (buffers 1 (5 / 1000)) 100.5 [200]);
    reflexivity.
Defined.

(** The example of resolution 0.1 ms: both times are on the grid and
    come back as they were given. *)
Lemma set_get_round_trip_witness :
  get (fst (snd (set (kernel_at 0)
                     (dict (Some [100.5; 200]) (Some [50; 100]) None)
                     (schedule [] [] false, buffers 0 0))))
  = dict (Some [100.5; 200]) (Some [50; 100]) (Some false).
Proof.
  apply (set_get_round_trip (kernel_at 0)
           (dict (Some [100.5; 200]) (Some [50; 100]) None)
           (schedule [] [] false) (buffers 0 0) 100.5 [200]).
  - reflexivity.
  - reflexivity.
  - repeat constructor.
Defined.

End Examples_X7.

(** ** The streaming update *)

Section BackendMore.

Context `{TA : TimeAPI}.
Variable K : Kernel.

Lemma set_never_OddPairCount (d : Dictionary) (P : Parameters_) (B : Buffers_) :
  fst (set K d (P, B)) <> inl OddPairCount.
Proof.
  intros He.
  destruct (set_error_inversion K d P B _ He)
    as [[H _] | [[H _] | [[H _] | [H _]]]]; discriminate.
Qed.

Lemma flatten_pairs_even (pairs : list (Q * Q)) :
  (length (flatten_pairs pairs) mod 2 =? 0)%nat = true.
Proof.
  rewrite flatten_pairs_length, Nat.mul_comm, Nat.Div0.mod_mul. reflexivity.
Qed.

End BackendMore.

(** X9.  [set_data_from_stimulation_backend] fails with [OddPairCount]
    exactly when the update has an odd number of entries; an empty
    update returns normally and changes nothing. *)
Theorem backend_OddPairCount_iff `{TA : TimeAPI} (K : Kernel)
    (rate_time_update : list Q) (P : Parameters_) (B : Buffers_) :
  (raises (set_data_from_stimulation_backend K rate_time_update (P, B))
          OddPairCount
   <-> (length rate_time_update mod 2 = 1)%nat)
  /\ set_data_from_stimulation_backend K [] (P, B) = (inr tt, (P, B)).
Proof.
  split; [|reflexivity].
  unfold raises.
  destruct (length rate_time_update mod 2 =? 0)%nat eqn:Heven.
  - apply Nat.eqb_eq in Heven. split; [|intros H; lia].
    intros He. exfalso.
    destruct rate_time_update as [|u upd]; [discriminate|].
    rewrite backend_unfold in He by (apply Nat.eqb_eq; exact Heven).
    pose proof (set_never_OddPairCount K (backend_dictionary P (u :: upd)) P B)
      as Hnever.
    destruct (set K _ (P, B)) as [[e|[]] [P' B']]; cbn [fst] in *;
      [congruence | discriminate].
  - rewrite (backend_odd K _ P B Heven). split; [|reflexivity].
    intros _. apply Nat.eqb_neq in Heven.
    pose proof (Nat.mod_upper_bound (length rate_time_update) 2). lia.
Qed.

(** X10.  What a successful streaming update leaves behind, for a
    stored schedule with as many values as times and a non-empty list
    of (time, rate) pairs: the stored values followed by the new ones;
    as times, the aligned times of the stored times read back in ms
    followed by the aligned new times, strictly increasing; the flag
    as it was; the index reset to 0 and the current rate untouched. *)
Theorem backend_success_appends `{TA : TimeAPI} (K : Kernel)
    (P : Parameters_) (B : Buffers_) (pairs : list (Q * Q)) :
  length (rate_times_ P) = length (rate_values_ P) ->
  pairs <> [] ->
  fst (set_data_from_stimulation_backend K (flatten_pairs pairs) (P, B))
  = inr tt ->
  let P' :=
    fst (snd (set_data_from_stimulation_backend K (flatten_pairs pairs) (P, B))) in
  let B' :=
    snd (snd (set_data_from_stimulation_backend K (flatten_pairs pairs) (P, B))) in
  rate_values_ P' = rate_values_ P ++ map snd pairs
  /\ Forall2 (fun x a => aligned_time K (allow_offgrid_times_ P) x = inr a)
       (map get_ms (rate_times_ P) ++ map fst pairs) (rate_times_ P')
  /\ strictly_increasing (rate_times_ P') = true
  /\ allow_offgrid_times_ P' = allow_offgrid_times_ P
  /\ B' = {| idx_ := 0; rate_ := rate_ B |}.
Proof.
  intros Hsize Hne Hok P' B'. subst P' B'.
  pose proof (flatten_pairs_even pairs) as Heven.
  destruct (backend_dictionary_pairs P pairs) as [Hdt Hdv].
  specialize (Hdv Hsize).
  destruct (flatten_pairs pairs) as [|u upd] eqn:Hflat.
  { destruct pairs as [|[t r] pairs]; [congruence | discriminate]. }
  rewrite backend_unfold in * by exact Heven.
  set (d := backend_dictionary P (u :: upd)) in *.
  destruct (map get_ms (rate_times_ P) ++ map fst pairs) as [|t ts] eqn:Htimes.
  { apply app_eq_nil in Htimes. destruct Htimes as [_ Hnil].
    destruct pairs; [congruence | discriminate]. }
  assert (Hset : fst (set K d (P, B)) = inr tt).
  { destruct (set K d (P, B)) as [[e|[]] [P' B']]; [discriminate | reflexivity]. }
  destruct (set_nontrivial_built K d P B t ts Hdt Hset)
    as (vs & al & Hv & Hlen & Hb & Heq).
  rewrite Heq. cbn [fst snd rate_times_ rate_values_ allow_offgrid_times_].
  destruct (build_schedule_sound K _ _ _ Hb) as [HF Hs].
  assert (Hpol : policy_after d P = allow_offgrid_times_ P) by reflexivity.
  rewrite Hpol in *.
  split; [congruence|]. split; [exact HF|]. split; [exact Hs|].
  split; reflexivity.
Qed.

Section Examples_X10.

Local Open Scope Q_scope.

(** A breakpoint at 100.5 ms is stored, the simulation time is 60 ms;
    the update [(200 ms, 100)] is accepted and appended. *)
Lemma backend_success_appends_witness :
  rate_values_
    (fst (snd (set_data_from_stimulation_backend (kernel_at 60)
                 (flatten_pairs [(200, 100)])
                 (schedule [100.5] [50] false, buffers 1 0.05))))
  = [50] ++ map snd [(200, 100)]
  /\ Forall2 (fun x a => aligned_time (kernel_at 60) false x = inr a)
       (map (@get_ms G01) [100.5] ++ map fst [(200, 100)])
       (rate_times_
          (fst (snd (set_data_from_stimulation_backend (kernel_at 60)
                       (flatten_pairs [(200, 100)])
                       (schedule [100.5] [50] false, buffers 1 0.05)))))
  /\ strictly_increasing
       (rate_times_
          (fst (snd (set_data_from_stimulation_backend (kernel_at 60)
                       (flatten_pairs [(200, 100)])
                       (schedule [100.5] [50] false, buffers 1 0.05)))))
     = true
  /\ allow_offgrid_times_
       (fst (snd (set_data_from_stimulation_backend (kernel_at 60)
                    (flatten_pairs [(200, 100)])
                    (schedule [100.5] [50] false, buffers 1 0.05))))
     = false
  /\ snd (snd (set_data_from_stimulation_backend (kernel_at 60)
                 (flatten_pairs [(200, 100)])
                 (schedule [100.5] [50] false, buffers 1 0.05)))
     = buffers 0 0.05.
Proof.
  apply (backend_success_appends (kernel_at 60) (schedule [100.5] [50] false)
           (buffers 1 0.05) [(200, 100)]).
  - reflexivity.
  - discriminate.
  - reflexivity.
Defined.

(** A stored schedule that satisfies the invariant still does after
    an accepted update. *)
Lemma backend_preserves_invariant_witness :
  schedule_invariant
    (fst (snd (set_data_from_stimulation_backend (kernel_at 60)
                 (flatten_pairs [(200, 100)])
                 (schedule [100.5] [50] false, buffers 1 0.05))))
  = true.
Proof.
  apply (backend_preserves_invariant (kernel_at 60) (flatten_pairs [(200, 100)])
           (schedule [100.5] [50] false) (buffers 1 0.05)).
  reflexivity.
Defined.

End Examples_X10.

(** ** More on [update] *)

Section UpdateMore.

Context `{TA : TimeAPI}.
Variable K : Kernel.
Variable is_active : Time -> bool.
Variable P : Parameters_.

(** [update] either stops at an assert, with the buffers untouched, or
    runs the catch-up and the loop. *)
Lemma update_cases (origin : Time) (from to : Z) (B : Buffers_) :
  (~ (0 <= to /\ from < get_min_delay K /\ from < to
      /\ length (rate_times_ P) = length (rate_values_ P))
   /\ update K is_active P origin from to B = (inl ConsistencyViolation, B))
  \/ ((0 <= to /\ from < get_min_delay K /\ from < to
       /\ length (rate_times_ P) = length (rate_values_ P))
      /\ update K is_active P origin from to B
         = (inr (snd (update_loop is_active P (get_steps origin)
                        (Z.to_nat (to - from))
                        (caught_up P (get_steps origin + from) B) from)),
            fst (update_loop is_active P (get_steps origin)
                   (Z.to_nat (to - from))
                   (caught_up P (get_steps origin + from) B) from))).
Proof.
  destruct (Z_le_dec 0 to) as [H1|H1];
    [destruct (Z_lt_dec from (get_min_delay K)) as [H2|H2];
     [destruct (Z_lt_dec from to) as [H3|H3];
      [destruct (Nat.eq_dec (length (rate_times_ P)) (length (rate_values_ P)))
         as [H4|H4]|]|]|].
  - right. split; [repeat split; assumption|]. apply update_runs; assumption.
  - left. split; [intros (_ & _ & _ & H); contradiction|].
    apply update_asserts_sizes. exact H4.
  - left. split; [intros (_ & _ & H & _); contradiction|].
    unfold update; exc_unfold.
    apply Z.leb_le in H1. apply Z.ltb_lt in H2.
    apply Z.nlt_ge, Z.ltb_ge in H3.
    rewrite H1, H2, H3. reflexivity.
  - left. split; [intros (_ & H & _); contradiction|].
    unfold update; exc_unfold.
    apply Z.leb_le in H1. apply Z.nlt_ge, Z.ltb_ge in H2.
    rewrite H1, H2. reflexivity.
  - left. split; [intros (H & _); contradiction|].
    unfold update; exc_unfold.
    apply Z.nle_gt, Z.leb_gt in H1. rewrite H1. reflexivity.
Qed.

Variable t0 : Z.

Lemma update_loop_app (n m : nat) :
  forall (B : Buffers_) (offs : Z),
    update_loop is_active P t0 (n + m) B offs
    = (fst (update_loop is_active P t0 m
              (fst (update_loop is_active P t0 n B offs)) (offs + Z.of_nat n)),
       snd (update_loop is_active P t0 n B offs)
       ++ snd (update_loop is_active P t0 m
                 (fst (update_loop is_active P t0 n B offs)) (offs + Z.of_nat n))).
Proof.
  induction n as [|n IH]; intros B offs.
  - cbn [Nat.add update_loop fst snd app]. rewrite Z.add_0_r.
    destruct (update_loop is_active P t0 m B offs). reflexivity.
  - cbn [Nat.add update_loop].
    destruct (update_step is_active P t0 B offs) as [B1 s1].
    rewrite IH.
    replace (offs + 1 + Z.of_nat n) with (offs + Z.of_nat (S n)) by lia.
    destruct (update_loop is_active P t0 n B1 (offs + 1)) as [B2 s2].
    cbn [fst snd]. rewrite app_assoc. reflexivity.
Qed.

(** One iteration moves the cursor by at most one, and only inside the
    schedule. *)
Lemma update_step_idx (B : Buffers_) (offs : Z) :
  (idx_ B <= idx_ (fst (update_step is_active P t0 B offs)))%nat
  /\ ((idx_ B <= length (rate_times_ P))%nat ->
      (idx_ (fst (update_step is_active P t0 B offs))
       <= length (rate_times_ P))%nat).
Proof.
  unfold update_step.
  destruct (idx_ B <? length (rate_times_ P))%nat eqn:Hlt; cbn [andb].
  - apply Nat.ltb_lt in Hlt.
    destruct (t0 + offs + 1 =? _); destruct (negb _ && _);
      cbn [fst idx_]; lia.
  - destruct (negb _ && _); cbn [fst]; lia.
Qed.

Lemma update_loop_idx (n : nat) :
  forall (B : Buffers_) (offs : Z),
    (idx_ B <= idx_ (fst (update_loop is_active P t0 n B offs)))%nat
    /\ ((idx_ B <= length (rate_times_ P))%nat ->
        (idx_ (fst (update_loop is_active P t0 n B offs))
         <= length (rate_times_ P))%nat).
Proof.
  induction n as [|n IH]; intros B offs.
  - cbn [update_loop fst]. lia.
  - rewrite update_loop_S.
    destruct (update_step_idx B offs) as [H1 H2].
    destruct (IH (fst (update_step is_active P t0 B offs)) (offs + 1))
      as [H3 H4].
    split; [lia|]. intros Hle. apply H4, H2, Hle.
Qed.

Lemma skip_past_bound (first : Z) (rest : list Time) :
  forall idx : nat,
    (idx <= skip_past first rest idx <= idx + length rest)%nat.
Proof.
  induction rest as [|t rest IH]; intros idx; cbn [skip_past length]; [lia|].
  destruct (get_steps t <=? first); [|lia].
  specialize (IH (S idx)). lia.
Qed.

Lemma caught_up_idx (first : Z) (B : Buffers_) :
  (idx_ B <= idx_ (caught_up P first B))%nat
  /\ ((idx_ B <= length (rate_times_ P))%nat ->
      (idx_ (caught_up P first B) <= length (rate_times_ P))%nat).
Proof.
  unfold caught_up. cbn [idx_].
  pose proof (skip_past_bound first (skipn (idx_ B) (rate_times_ P)) (idx_ B))
    as Hb.
  rewrite length_skipn in Hb. lia.
Qed.

(** The offsets sent by the loop: inside the block, at active steps,
    in increasing order. *)
Lemma update_loop_sent (n : nat) :
  forall (B : Buffers_) (offs : Z),
    Forall (fun o => offs <= o < offs + Z.of_nat n
                     /\ is_active (Time_step (t0 + o)) = true)
           (snd (update_loop is_active P t0 n B offs))
    /\ StronglySorted Z.lt (snd (update_loop is_active P t0 n B offs)).
Proof.
  induction n as [|n IH]; intros B offs.
  - cbn [update_loop snd]. split; constructor.
  - cbn [update_loop].
    pose proof (update_step_sent is_active P t0 B offs) as Hs.
    destruct (update_step is_active P t0 B offs) as [B1 s1].
    cbn [fst snd] in Hs.
    destruct (IH B1 (offs + 1)) as [HF HS].
    destruct (update_loop is_active P t0 n B1 (offs + 1)) as [B2 s2].
    cbn [snd] in *.
    assert (HF' : Forall (fun o => offs <= o < offs + Z.of_nat (S n)
                                   /\ is_active (Time_step (t0 + o)) = true) s2).
    { eapply Forall_impl; [|exact HF]. cbv beta. intros o [Ho Ha].
      split; [lia | exact Ha]. }
    destruct (spike_decided is_active t0 (rate_ B1) offs) eqn:Hd; subst s1;
      cbn [app].
    + split.
      * constructor; [|exact HF'].
        unfold spike_decided in Hd. apply andb_true_iff in Hd.
        split; [lia | exact (proj2 Hd)].
      * constructor; [exact HS|].
        eapply Forall_impl; [|exact HF]. cbv beta. intros o [Ho _]. lia.
    + split; assumption.
Qed.

(** The rate after the loop is the rate before it, or the value under
    the last breakpoint the cursor has passed. *)
Lemma update_loop_rate (n : nat) :
  forall (B : Buffers_) (offs : Z),
    let B' := fst (update_loop is_active P t0 n B offs) in
    (idx_ B' = idx_ B /\ rate_ B' = rate_ B)
    \/ ((idx_ B < idx_ B' <= length (rate_times_ P))%nat
        /\ rate_ B' = (nth (idx_ B' - 1) (rate_values_ P) 0 / 1000)%Q).
Proof.
  induction n as [|n IH]; intros B offs; cbv zeta.
  - left. split; reflexivity.
  - rewrite update_loop_S.
    specialize (IH (fst (update_step is_active P t0 B offs)) (offs + 1)).
    cbv zeta in IH.
    set (B1 := fst (update_step is_active P t0 B offs)) in *.
    set (B' := fst (update_loop is_active P t0 n B1 (offs + 1))) in *.
    assert (Hstep : (idx_ B1 = idx_ B /\ rate_ B1 = rate_ B)
                    \/ ((idx_ B < length (rate_times_ P))%nat
                        /\ idx_ B1 = S (idx_ B)
                        /\ rate_ B1
                           = (nth (idx_ B) (rate_values_ P) 0 / 1000)%Q)).
    { subst B1. unfold update_step.
      destruct (idx_ B <? length (rate_times_ P))%nat eqn:Hlt; cbn [andb].
      - apply Nat.ltb_lt in Hlt.
        destruct (t0 + offs + 1 =? _); destruct (negb _ && _); cbn [fst idx_ rate_];
          auto.
      - destruct (negb _ && _); cbn [fst]; auto. }
    destruct IH as [[Hi Hr] | [Hi Hr]]; destruct Hstep as [[Hi1 Hr1] | (Hl & Hi1 & Hr1)].
    + left. split; congruence.
    + right. split; [lia|]. rewrite Hr, Hr1, Hi, Hi1.
      replace (S (idx_ B) - 1)%nat with (idx_ B) by lia. reflexivity.
    + right. split; [lia | exact Hr].
    + right. split; [lia | exact Hr].
Qed.

End UpdateMore.

(** X12.  The asserts of [update].  The call stops before doing
    anything exactly when [to] is negative, [from] is not below the
    minimal delay, [from] is not below [to], or the schedule has
    another number of values than of times; the buffers are then
    untouched. *)
Theorem update_fails_iff `{TA : TimeAPI} (K : Kernel)
    (is_active : Time -> bool) (P : Parameters_)
    (origin : Time) (from to : Z) (B : Buffers_) :
  (failed (update K is_active P origin from to B) = true
   <-> ~ (0 <= to /\ from < get_min_delay K /\ from < to
          /\ length (rate_times_ P) = length (rate_values_ P)))
  /\ (failed (update K is_active P origin from to B) = true ->
      update K is_active P origin from to B = (inl ConsistencyViolation, B)).
Proof.
  destruct (update_cases K is_active P origin from to B) as [[Hn ->] | [Hy ->]];
    unfold failed; cbn [fst].
  - split; [split; [intros _; exact Hn | reflexivity] | reflexivity].
  - split; [split; [discriminate | intros Hn; contradiction] | discriminate].
Qed.

(** X13.  The cursor never moves back in [update], and a cursor that
    is within the schedule (at most its size) stays within it. *)
Theorem update_cursor_monotone `{TA : TimeAPI} (K : Kernel)
    (is_active : Time -> bool) (P : Parameters_)
    (origin : Time) (from to : Z) (B : Buffers_) :
  (idx_ B <= idx_ (snd (update K is_active P origin from to B)))%nat
  /\ ((idx_ B <= length (rate_times_ P))%nat ->
      (idx_ (snd (update K is_active P origin from to B))
       <= length (rate_times_ P))%nat).
Proof.
  destruct (update_cases K is_active P origin from to B) as [[_ ->] | [_ ->]];
    cbn [snd].
  - split; [lia | intros H; exact H].
  - destruct (caught_up_idx P (get_steps origin + from) B) as [H1 H2].
    destruct (update_loop_idx is_active P (get_steps origin)
                (Z.to_nat (to - from))
                (caught_up P (get_steps origin + from) B) from) as [H3 H4].
    split; [lia|]. intros Hle. apply H4, H2, Hle.
Qed.

(** X14.  The events of one [update] call: every offset at which an
    event is sent lies in the block [from, to), the device is active at
    its step, and the offsets come in strictly increasing order (no
    offset twice). *)
Theorem update_sent_offsets `{TA : TimeAPI} (K : Kernel)
    (is_active : Time -> bool) (P : Parameters_)
    (origin : Time) (from to : Z) (B : Buffers_) (sent : list Z) :
  fst (update K is_active P origin from to B) = inr sent ->
  Forall (fun o => from <= o < to
                   /\ is_active (Time_step (get_steps origin + o)) = true) sent
  /\ StronglySorted Z.lt sent.
Proof.
  destruct (update_cases K is_active P origin from to B)
    as [[_ ->] | [(_ & _ & Hlt & _) ->]]; cbn [fst]; [discriminate|].
  intros [= <-].
  destruct (update_loop_sent is_active P (get_steps origin)
              (Z.to_nat (to - from))
              (caught_up P (get_steps origin + from) B) from) as [HF HS].
  split; [|exact HS].
  eapply Forall_impl; [|exact HF]. cbv beta. intros o [Ho Ha].
  split; [lia | exact Ha].
Qed.

(** X15.  Where the current rate comes from.  After [update] the
    current rate is the one before the call, or -- when the cursor has
    advanced -- the rate value under the last breakpoint the cursor has
    passed, divided by 1000. *)
Theorem update_rate_provenance `{TA : TimeAPI} (K : Kernel)
    (is_active : Time -> bool) (P : Parameters_)
    (origin : Time) (from to : Z) (B : Buffers_) :
  let B' := snd (update K is_active P origin from to B) in
  rate_ B' = rate_ B
  \/ ((idx_ B < idx_ B' <= length (rate_times_ P))%nat
      /\ rate_ B' = (nth (idx_ B' - 1) (rate_values_ P) 0 / 1000)%Q).
Proof.
  cbv zeta.
  destruct (update_cases K is_active P origin from to B) as [[_ ->] | [_ ->]];
    cbn [snd]; [left; reflexivity|].
  destruct (caught_up_idx P (get_steps origin + from) B) as [H1 _].
  destruct (update_loop_rate is_active P (get_steps origin)
              (Z.to_nat (to - from))
              (caught_up P (get_steps origin + from) B) from)
    as [[_ Hr] | [Hi Hr]].
  - left. rewrite Hr. reflexivity.
  - right. split; [lia | exact Hr].
Qed.

(** X16.  Past the last breakpoint.  When the cursor is at the end of
    the schedule, an [update] whose asserts hold leaves the buffers as
    they are and sends an event at exactly the offsets of the block at
    which the current rate is positive and the device is active. *)
Theorem update_after_last_breakpoint `{TA : TimeAPI} (K : Kernel)
    (is_active : Time -> bool) (P : Parameters_)
    (origin : Time) (from to : Z) (B : Buffers_) :
  (length (rate_times_ P) <= idx_ B)%nat ->
  0 <= to -> from < get_min_delay K -> from < to ->
  length (rate_times_ P) = length (rate_values_ P) ->
  update K is_active P origin from to B
  = (inr (filter (spike_decided is_active (get_steps origin) (rate_ B))
                 (offsets from (Z.to_nat (to - from)))),
     B).
Proof.
  intros Hend Hto Hdelay Hlt Hsize.
  rewrite update_runs by assumption.
  rewrite caught_up_quiet by (intros j Hj; lia).
  rewrite update_loop_quiet by (intros j Hj; lia).
  reflexivity.
Qed.

Section ZeroRate.

Context `{TA : TimeAPI}.
Variable is_active : Time -> bool.
Variable P : Parameters_.
Variable t0 : Z.
Hypothesis values_nonpositive : Forall (fun v => (v <= 0)%Q) (rate_values_ P).

Lemma scaled_value_nonpositive (i : nat) :
  (nth i (rate_values_ P) 0 / 1000 <= 0)%Q.
Proof.
  assert (Hv : (nth i (rate_values_ P) 0 <= 0)%Q).
  { destruct (Nat.lt_ge_cases i (length (rate_values_ P))) as [Hi|Hi].
    - rewrite Forall_forall in values_nonpositive.
      apply values_nonpositive, nth_In, Hi.
    - rewrite nth_overflow by exact Hi. apply Qle_refl. }
  unfold Qdiv.
  setoid_replace 0%Q with (0 * / 1000)%Q at 2 by reflexivity.
  apply Qmult_le_compat_r; [exact Hv | discriminate].
Qed.

Lemma update_loop_zero_rate (n : nat) :
  forall (B : Buffers_) (offs : Z),
    (rate_ B <= 0)%Q ->
    snd (update_loop is_active P t0 n B offs) = [].
Proof.
  induction n as [|n IH]; intros B offs Hr; [reflexivity|].
  cbn [update_loop].
  pose proof (update_step_sent is_active P t0 B offs) as Hs.
  assert (Hr1 : (rate_ (fst (update_step is_active P t0 B offs)) <= 0)%Q).
  { unfold update_step.
    destruct (_ && (t0 + offs + 1 =? _)); destruct (negb _ && _);
      cbn [fst rate_]; first [exact Hr | apply scaled_value_nonpositive]. }
  destruct (update_step is_active P t0 B offs) as [B1 s1]. cbn [fst snd] in *.
  specialize (IH B1 (offs + 1) Hr1).
  destruct (update_loop is_active P t0 n B1 (offs + 1)) as [B2 s2].
  cbn [snd] in *. subst s1 s2.
  unfold spike_decided. apply Qle_bool_iff in Hr1. rewrite Hr1. reflexivity.
Qed.

End ZeroRate.

(** X17.  Zero suppression.  When the current rate is not positive and
    no rate value of the schedule is positive, [update] sends no event,
    whatever the activity window says. *)
Theorem update_zero_suppression `{TA : TimeAPI} (K : Kernel)
    (is_active : Time -> bool) (P : Parameters_)
    (origin : Time) (from to : Z) (B : Buffers_) :
  (rate_ B <= 0)%Q ->
  Forall (fun v => (v <= 0)%Q) (rate_values_ P) ->
  succeeded (update K is_active P origin from to B) = true ->
  fst (update K is_active P origin from to B) = inr [].
Proof.
  intros Hr Hv. unfold succeeded, failed.
  destruct (update_cases K is_active P origin from to B) as [[_ ->] | [_ ->]];
    cbn [fst negb]; [discriminate|].
  intros _. f_equal. apply update_loop_zero_rate; [exact Hv|].
  unfold caught_up. cbn [rate_]. exact Hr.
Qed.

(** X18.  The catch-up loop is idempotent: running it a second time
    for the same first step moves the cursor no further. *)
Theorem catch_up_idempotent `{TA : TimeAPI} (P : Parameters_)
    (first : Z) (B : Buffers_) :
  caught_up P first (caught_up P first B) = caught_up P first B.
Proof.
  assert (H2 : (idx_ (caught_up P first B) < length (rate_times_ P))%nat ->
               first < step_at P (idx_ (caught_up P first B))).
  { exact (proj1 (proj2 (skip_past_spec P first _ (idx_ B) eq_refl))). }
  set (B1 := caught_up P first B) in *.
  unfold caught_up at 1.
  destruct (skipn (idx_ B1) (rate_times_ P)) as [|t rest] eqn:Hskip;
    cbn [skip_past].
  - destruct B1; reflexivity.
  - destruct (skipn_cons_nth _ (Time_ms 0%Q) _ _ _ Hskip) as (Hlt & Hnth & _).
    specialize (H2 Hlt). unfold step_at in H2. rewrite Hnth in H2.
    replace (get_steps t <=? first) with false
      by (symmetry; apply Z.leb_gt; exact H2).
    destruct B1; reflexivity.
Qed.

Section Contiguous.

Context `{TA : TimeAPI}.
Variable is_active : Time -> bool.
Variable P : Parameters_.
Variable t0 : Z.
Hypothesis Hinc : steps_increasing P.

(** With increasing steps, a cursor that points after the current step
    still does after any number of iterations. *)
Lemma update_loop_ahead (n : nat) :
  forall (B : Buffers_) (offs : Z),
    ((idx_ B < length (rate_times_ P))%nat -> t0 + offs < step_at P (idx_ B)) ->
    let B' := fst (update_loop is_active P t0 n B offs) in
    (idx_ B' < length (rate_times_ P))%nat ->
    t0 + offs + Z.of_nat n < step_at P (idx_ B').
Proof.
  induction n as [|n IH]; intros B offs Hcur; cbv zeta.
  - cbn [update_loop fst]. intros Hlt. specialize (Hcur Hlt). lia.
  - rewrite update_loop_S.
    replace (t0 + offs + Z.of_nat (S n)) with (t0 + (offs + 1) + Z.of_nat n) by lia.
    apply IH.
    destruct (Nat.lt_ge_cases (idx_ B) (length (rate_times_ P))) as [Hlt|Hge].
    + specialize (Hcur Hlt).
      destruct (Z.eq_dec (step_at P (idx_ B)) (t0 + offs + 1)) as [Hfire|Hidle].
      * rewrite update_step_fires by assumption. cbn [idx_]. intros Hlt'.
        pose proof (Hinc (idx_ B) (S (idx_ B)) ltac:(lia)). lia.
      * rewrite update_step_idle by (intros _; exact Hidle). intros _. lia.
    + rewrite update_step_idle by (intros Hlt; lia). intros Hlt. lia.
Qed.

Lemma caught_up_after_loop (n : nat) (first : Z) (B : Buffers_) (offs : Z) :
  t0 + offs = first ->
  caught_up P (first + Z.of_nat n)
    (fst (update_loop is_active P t0 n (caught_up P first B) offs))
  = fst (update_loop is_active P t0 n (caught_up P first B) offs).
Proof.
  intros Hfirst.
  assert (Hcur : (idx_ (caught_up P first B) < length (rate_times_ P))%nat ->
                 t0 + offs < step_at P (idx_ (caught_up P first B))).
  { rewrite Hfirst.
    exact (proj1 (proj2 (skip_past_spec P first _ (idx_ B) eq_refl))). }
  pose proof (update_loop_ahead n _ offs Hcur) as Hahead. cbv zeta in Hahead.
  set (B1 := fst (update_loop is_active P t0 n (caught_up P first B) offs)) in *.
  apply caught_up_quiet. intros j Hj.
  specialize (Hahead ltac:(lia)).
  destruct (Nat.eq_dec j (idx_ B1)) as [->|Hne].
  - unfold step_at in Hahead. lia.
  - pose proof (Hinc (idx_ B1) j ltac:(lia)) as Hs. unfold step_at in *. lia.
Qed.

End Contiguous.

(** X19.  Contiguous blocks compose.  For a schedule whose steps
    increase strictly, two [update] calls over the adjacent blocks
    [from, mid) and [mid, to) that both return normally do together
    what one call over [from, to) does: the same buffers at the end,
    and the events of the first call followed by those of the second. *)
Theorem update_blocks_compose `{TA : TimeAPI} (K : Kernel)
    (is_active : Time -> bool) (P : Parameters_) (origin : Time)
    (from mid to : Z) (B B1 B2 : Buffers_) (sent1 sent2 : list Z) :
  steps_increasing P ->
  update K is_active P origin from mid B = (inr sent1, B1) ->
  update K is_active P origin mid to B1 = (inr sent2, B2) ->
  update K is_active P origin from to B = (inr (sent1 ++ sent2), B2).
Proof.
  intros Hinc H1 H2.
  destruct (update_cases K is_active P origin from mid B)
    as [[_ E1] | [(Hm & Hd & Hfm & Hsize) E1]]; [congruence|].
  destruct (update_cases K is_active P origin mid to B1)
    as [[_ E2] | [(Hto & _ & Hmt & _) E2]]; [congruence|].
  rewrite E1 in H1. rewrite E2 in H2. injection H1 as Hs1 HB1.
  injection H2 as Hs2 HB2.
  rewrite update_runs by (try assumption; lia).
  replace (Z.to_nat (to - from))
    with (Z.to_nat (mid - from) + Z.to_nat (to - mid))%nat by lia.
  rewrite update_loop_app.
  replace (from + Z.of_nat (Z.to_nat (mid - from))) with mid by lia.
  rewrite HB1, Hs1.
  assert (Hcu : caught_up P (get_steps origin + mid) B1 = B1).
  { rewrite <- HB1.
    replace (get_steps origin + mid)
      with (get_steps origin + from + Z.of_nat (Z.to_nat (mid - from))) by lia.
    apply caught_up_after_loop; [exact Hinc | reflexivity]. }
  rewrite Hcu in Hs2, HB2. rewrite Hs2, HB2. reflexivity.
Qed.

Section Examples_Update.

Local Open Scope Q_scope.

(** Breakpoints at step 10 (rate 5) and step 20 (rate 0), all steps
    active: the block [5, 12) sends at offsets 9, 10 and 11. *)
Lemma update_sent_offsets_witness :
  Forall (fun o => (5 <= o < 12)%Z
                   /\ always_active (Time_step (@get_steps G01 0 + o)) = true)
         [9; 10; 11]%Z
  /\ StronglySorted Z.lt [9; 10; 11]%Z.
Proof.
  apply (update_sent_offsets (kernel_at 0) always_active
           (schedule [1; 2] [5; 0] false) (0 : @Time G01) 5%Z 12%Z
           (buffers 0 0) [9; 10; 11]%Z).
  reflexivity.
Defined.

(** The same schedule with the cursor at its end and rate 0.005: the
    block [0, 3) sends at every offset and changes nothing. *)
Lemma update_after_last_breakpoint_witness :
  update (kernel_at 0) always_active (schedule [1; 2] [5; 0] false)
         (30 : @Time G01) 0 3 (buffers 2 0.005)
  = (inr [0; 1; 2]%Z, buffers 2 0.005).
Proof.
  apply (update_after_last_breakpoint (kernel_at 0) always_active
           (schedule [1; 2] [5; 0] false) (30 : @Time G01) 0%Z 3%Z
           (buffers 2 0.005)); cbn; try lia; reflexivity.
Defined.

(** A schedule of zero rates on a generator at rate 0 sends nothing. *)
Lemma update_zero_suppression_witness :
  fst (update (kernel_at 0) always_active (schedule [1; 2] [0; 0] false)
              (0 : @Time G01) 0 8 (buffers 0 0))
  = inr [].
Proof.
  apply (update_zero_suppression (kernel_at 0) always_active
           (schedule [1; 2] [0; 0] false) (0 : @Time G01) 0%Z 8%Z
           (buffers 0 0)).
  - cbn. discriminate.
  - repeat constructor; cbn; discriminate.
  - reflexivity.
Defined.

(** The blocks [0, 5) and [5, 12) of the schedule above against the
    block [0, 12). *)
Lemma update_blocks_compose_witness :
  update (kernel_at 0) always_active (schedule [1; 2] [5; 0] false)
         (0 : @Time G01) 0 12 (buffers 0 0)
  = (inr ([] ++ [9; 10; 11])%Z, buffers 1 (5 / 1000)).
Proof.
  apply (update_blocks_compose (kernel_at 0) always_active
           (schedule [1; 2] [5; 0] false) (0 : @Time G01) 0%Z 5%Z 12%Z
           (buffers 0 0) (buffers 0 0) (buffers 1 (5 / 1000))
           [] [9; 10; 11]%Z).
  - intros i j [Hij Hj]. cbn [length rate_times_ schedule] in Hj.
    destruct i as [|[|i]], j as [|[|j]]; try lia. reflexivity.
  - reflexivity.
  - reflexivity.
Defined.

End Examples_Update.

(** ** What [Parameters_::set] does to its receiver *)

Section Receiver.

Context `{TA : TimeAPI}.
Variable K : Kernel.

Lemma insert_keeps_values (t : Q) (P : Parameters_) :
  rate_values_ (snd (assert_valid_rate_time_and_insert K t P)) = rate_values_ P
  /\ allow_offgrid_times_ (snd (assert_valid_rate_time_and_insert K t P))
     = allow_offgrid_times_ P.
Proof.
  rewrite insert_aligned_time.
  destruct (aligned_time K (allow_offgrid_times_ P) t); split; reflexivity.
Qed.

Lemma set_loop_keeps_values (ts : list Q) :
  forall (n : nat) (P : Parameters_),
    rate_values_ (snd (set_loop K ts n P)) = rate_values_ P
    /\ allow_offgrid_times_ (snd (set_loop K ts n P)) = allow_offgrid_times_ P.
Proof.
  induction ts as [|t ts IH]; intros n P; [split; reflexivity|].
  rewrite set_loop_cons.
  destruct (aligned_time K (allow_offgrid_times_ P) t) as [e|a];
    [split; reflexivity|].
  cbv zeta. destruct (Time_ge _ _); [split; reflexivity|].
  destruct (IH (S n) (push_back_rate_time a P)) as [H1 H2].
  rewrite H1, H2. split; reflexivity.
Qed.

End Receiver.

(** X20.  [Parameters_::set] is not all-or-nothing on its receiver.
    Whatever the outcome of the call -- normal return or any error --
    the receiver's rate values afterwards are those of the dictionary
    when it carries the key [rate_values] (they are stored by the first
    statement), and the stored ones otherwise; and the receiver's flag
    is the one of the dictionary unless the flag lock fired. *)
Theorem set_receiver_after_call `{TA : TimeAPI} (K : Kernel)
    (d : Dictionary) (P : Parameters_) (B : Buffers_) :
  rate_values_ (fst (snd (set K d (P, B))))
  = match d_rate_values d with
    | Some vs => vs
    | None => rate_values_ P
    end
  /\ allow_offgrid_times_ (fst (snd (set K d (P, B))))
     = if flag_locked d P then allow_offgrid_times_ P
       else match d_allow_offgrid_times d with
            | Some f => f
            | None => allow_offgrid_times_ P
            end.
Proof.
  unfold flag_locked, set, updateValue_rate_values; exc_unfold.
  destruct d as [dt dv df].
  cbn [d_rate_times d_rate_values d_allow_offgrid_times].
  destruct dt as [[|t ts]|], dv as [vs|], df as [f|];
    cbn -[Nat.eqb length assert_valid_rate_time_and_insert set_loop];
    rewrite ?andb_false_r;
    cbn -[Nat.eqb length assert_valid_rate_time_and_insert set_loop];
    repeat match goal with
      | |- context [assert_valid_rate_time_and_insert K ?x ?y] =>
          let H := fresh "Hins" in
          pose proof (insert_keeps_values K x y) as H;
          destruct (assert_valid_rate_time_and_insert K x y) as [[?|[]] ?];
          cbn [snd rate_values_ allow_offgrid_times_ clear_rate_times
               set_allow_offgrid_times] in H
      | |- context [set_loop K ?x ?n ?y] =>
          let H := fresh "Hloop" in
          pose proof (set_loop_keeps_values K x n y) as H;
          destruct (set_loop K x n y) as [[?|[]] ?];
          cbn [snd] in H
      | |- context [if ?b then _ else _] => destruct b
      end;
    cbn [fst snd rate_values_ allow_offgrid_times_ set_allow_offgrid_times];
    repeat match goal with H : _ /\ _ |- _ => destruct H end;
    cbn [fst snd rate_values_ allow_offgrid_times_ set_allow_offgrid_times
         clear_rate_times] in *;
    split; congruence.
Qed.

(** X21.  The streaming update is [set] on the concatenation.  For a
    stored schedule with as many values as times and a non-empty list
    of (time, rate) pairs, [set_data_from_stimulation_backend] runs
    [set], on a copy, with the stored times read back in ms followed by
    the new times and the stored values followed by the new values, and
    without a flag; it stores the copy when [set] returns normally and
    keeps the stored parameters when [set] throws. *)
Theorem backend_is_set_on_concatenation `{TA : TimeAPI} (K : Kernel)
    (P : Parameters_) (B : Buffers_) (pairs : list (Q * Q)) :
  length (rate_times_ P) = length (rate_values_ P) ->
  pairs <> [] ->
  set_data_from_stimulation_backend K (flatten_pairs pairs) (P, B)
  = match set K {| d_rate_times :=
                     Some (map get_ms (rate_times_ P) ++ map fst pairs);
                   d_rate_values := Some (rate_values_ P ++ map snd pairs);
                   d_allow_offgrid_times := None |} (P, B) with
    | (inl e, (_, B')) => (inl e, (P, B'))
    | (inr _, (P', B')) => (inr tt, (P', B'))
    end.
Proof.
  intros Hsize Hne.
  pose proof (flatten_pairs_even pairs) as Heven.
  destruct (backend_dictionary_pairs P pairs) as [Hdt Hdv].
  specialize (Hdv Hsize).
  destruct (flatten_pairs pairs) as [|u upd] eqn:Hflat.
  { destruct pairs as [|[t r] pairs]; [congruence | discriminate]. }
  rewrite backend_unfold by exact Heven.
  destruct (backend_dictionary P (u :: upd)) as [dt dv df] eqn:Hd.
  cbn [d_rate_times d_rate_values] in Hdt, Hdv. subst dt dv.
  assert (Hf : df = None).
  { unfold backend_dictionary in Hd. injection Hd as _ _ <-. reflexivity. }
  subst df. reflexivity.
Qed.

Section Examples_X21.

Local Open Scope Q_scope.

Lemma backend_is_set_on_concatenation_witness :
  set_data_from_stimulation_backend (kernel_at 60) (flatten_pairs [(200, 100)])
    (schedule [100.5] [50] false, buffers 1 0.05)
  = match set (kernel_at 60)
                {| d_rate_times :=
                     Some (map (@get_ms G01) [100.5] ++ map fst [(200, 100)]);
                   d_rate_values := Some ([50] ++ map snd [(200, 100)]);
                   d_allow_offgrid_times := None |}
                (schedule [100.5] [50] false, buffers 1 0.05) with
    | (inl e, (_, B')) => (inl e, (schedule [100.5] [50] false, B'))
    | (inr _, (P', B')) => (inr tt, (P', B'))
    end.
Proof.
  apply (backend_is_set_on_concatenation (kernel_at 60)
           (schedule [100.5] [50] false) (buffers 1 0.05) [(200, 100)]).
  - reflexivity.
  - discriminate.
Defined.

End Examples_X21.
